(** * IntelliProcess-MVP: the extraction pipeline of [src/App.jsx]

    A shallow embedding of [parseDate], [localExtractor], [callGemini],
    [buildPrompt] and [handleProcess], and the properties the
    specification states about them.

    JavaScript strings are sequences of UTF-16 code units; they are
    modelled as lists of code units ([N]).  The built-ins the program
    calls but does not define ([Date], [JSON.parse], [fetch], the clock)
    are parameters of the sections that use them. *)

From Stdlib Require Import NArith ZArith Ascii String DecimalString.
From Stdlib Require Import Floats.PrimFloat Numbers.Cyclic.Int63.Uint63.
From stdpp Require Import gmap list fin_maps.

Open Scope N_scope.

(** ** Strings *)

Module Js.

Abbreviation jsstring := (list N).

Fixpoint str (s : string) : jsstring :=
  match s with
  | EmptyString => []
  | String a s' => N_of_ascii a :: str s'
  end.

(** [!s] for a string [s]: the empty string is the only falsy string. *)
Definition truthy_str (s : jsstring) : bool :=
  match s with [] => false | _ :: _ => true end.

(** WhiteSpace and LineTerminator code points of ECMAScript: what [\s]
    matches and what [String.prototype.trim] strips. *)
Definition is_space (c : N) : bool :=
  ((9 <=? c) && (c <=? 13)) || (c =? 32) || (c =? 160) || (c =? 5760)
  || ((8192 <=? c) && (c <=? 8202)) || (c =? 8232) || (c =? 8233)
  || (c =? 8239) || (c =? 8287) || (c =? 12288) || (c =? 65279).

Fixpoint trimStart (s : jsstring) : jsstring :=
  match s with
  | c :: s' => if is_space c then trimStart s' else s
  | [] => []
  end.

Definition trimEnd (s : jsstring) : jsstring := rev (trimStart (rev s)).

Definition trim (s : jsstring) : jsstring := trimEnd (trimStart s).

(** [String(n)] for an integer [n]. *)
Definition string_of_Z (z : Z) : jsstring :=
  str (NilZero.string_of_int (Z.to_int z)).

(** [s.padStart(n, '0')]. *)
Definition padStart0 (n : nat) (s : jsstring) : jsstring :=
  replicate (n - length s) 48 ++ s.

End Js.

Import Js.

(** ** Regular expressions

    The engine follows the backtracking semantics of ECMAScript
    (22.2.2): a matcher takes the rest of the input, the captures so
    far and a continuation; a greedy quantifier first tries one more
    iteration and falls back to the continuation.  Every quantifier in
    the program's patterns is applied to a single character class, so
    the syntax attaches the quantifier to the class. *)

Module Re.

(** Members of a character class. *)
Inductive citem : Type :=
| CChar (c : N)            (* a literal character *)
| CRange (lo hi : N)       (* [lo-hi] *)
| CDigit                   (* \d *)
| CWord                    (* \w *)
| CSpace.                  (* \s *)

Definition cset := list citem.

Definition in_range (lo hi c : N) : bool := (lo <=? c) && (c <=? hi).

Definition is_digit (c : N) : bool := in_range 48 57 c.
Definition is_upper (c : N) : bool := in_range 65 90 c.
Definition is_lower (c : N) : bool := in_range 97 122 c.
Definition is_word (c : N) : bool :=
  is_upper c || is_lower c || is_digit c || (c =? 95).

(** Case folding of the [i] flag without the [u] flag (Canonicalize):
    a code unit is replaced by its upper-case form, except that a code
    unit above 127 is never mapped to one below 128.  All the
    characters the program's patterns name are ASCII and white space is
    caseless, so only the ASCII letters fold here; the other code units
    stay apart from every ASCII one, as they do under the full
    mapping. *)
Definition toUpper (c : N) : N := if is_lower c then c - 32 else c.
Definition toLower (c : N) : N := if is_upper c then c + 32 else c.

Definition item_matches (icase : bool) (it : citem) (c : N) : bool :=
  match it with
  | CChar a => (a =? c) || (icase && (toUpper a =? toUpper c))
  | CRange lo hi =>
      in_range lo hi c
      || (icase && (in_range lo hi (toUpper c) || in_range lo hi (toLower c)))
  | CDigit => is_digit c
  | CWord => is_word c
  | CSpace => is_space c
  end.

Definition cset_matches (icase : bool) (cs : cset) (c : N) : bool :=
  existsb (fun it => item_matches icase it c) cs.

Inductive regex : Type :=
| Eps
| Cls (cs : cset) (mn : nat) (mx : option nat)   (* class{mn,mx}, greedy *)
| Seq (r1 r2 : regex)
| Grp (n : nat) (r : regex).                     (* n-th capturing group *)

(** The captures of a match: group number to captured text; group 0 is
    the whole match. *)
Definition captures := list (nat * jsstring).

Fixpoint group (n : nat) (m : captures) : option jsstring :=
  match m with
  | [] => None
  | (k, v) :: m' => if Nat.eqb k n then Some v else group n m'
  end.

Definition more_allowed (mx : option nat) : bool :=
  match mx with Some O => false | _ => true end.

(** RepeatMatcher for a character class. *)
Fixpoint rep {A} (icase : bool) (cs : cset) (mn : nat) (mx : option nat)
    (s : jsstring) (k : jsstring -> option A) : option A :=
  match s with
  | c :: s' =>
      if more_allowed mx && cset_matches icase cs c then
        match rep icase cs (Nat.pred mn) (Nat.pred <$> mx) s' k with
        | Some r => Some r
        | None => if Nat.eqb mn 0 then k s else None
        end
      else if Nat.eqb mn 0 then k s else None
  | [] => if Nat.eqb mn 0 then k [] else None
  end.

Fixpoint run (icase : bool) (r : regex) (s : jsstring) (caps : captures)
    (k : jsstring -> captures -> option captures) : option captures :=
  match r with
  | Eps => k s caps
  | Cls cs mn mx => rep icase cs mn mx s (fun s' => k s' caps)
  | Seq a b => run icase a s caps (fun s' caps' => run icase b s' caps' k)
  | Grp n a =>
      run icase a s caps
        (fun s' caps' => k s' ((n, take (length s - length s') s) :: caps'))
  end.

(** A match attempt at the start of [s]. *)
Definition match_here (icase : bool) (r : regex) (s : jsstring) : option captures :=
  run icase r s []
    (fun s' caps => Some ((O, take (length s - length s') s) :: caps)).

(** [s.match(r)] for a pattern without the [g] flag: the leftmost
    position at which the pattern matches. *)
Fixpoint exec (icase : bool) (r : regex) (s : jsstring) : option captures :=
  match match_here icase r s with
  | Some m => Some m
  | None =>
      match s with
      | [] => None
      | _ :: s' => exec icase r s'
      end
  end.

(** What it means for a pattern to match a text, apart from the search:
    [Matches icase r s c c'] when [r] matches exactly [s] and extends
    the captures [c] to [c']. *)
Inductive Matches (icase : bool) : regex -> jsstring -> captures -> captures -> Prop :=
| M_Eps c : Matches icase Eps [] c c
| M_Cls cs mn mx s c :
    Forall (fun x => cset_matches icase cs x = true) s ->
    (mn <= length s)%nat ->
    (forall n, mx = Some n -> (length s <= n)%nat) ->
    Matches icase (Cls cs mn mx) s c c
| M_Seq a b s1 s2 c0 c1 c2 :
    Matches icase a s1 c0 c1 ->
    Matches icase b s2 c1 c2 ->
    Matches icase (Seq a b) (s1 ++ s2) c0 c2
| M_Grp n a s c0 c1 :
    Matches icase a s c0 c1 ->
    Matches icase (Grp n a) s c0 ((n, s) :: c1).

(** Pattern syntax helpers. *)
Definition one (cs : cset) : regex := Cls cs 1 (Some 1%nat).
Definition star (cs : cset) : regex := Cls cs 0 None.
Definition plus (cs : cset) : regex := Cls cs 1 None.
Definition opt (cs : cset) : regex := Cls cs 0 (Some 1%nat).
Definition chr (a : ascii) : citem := CChar (N_of_ascii a).

Fixpoint lit (s : string) : regex :=
  match s with
  | EmptyString => Eps
  | String a s' => Seq (one [chr a]) (lit s')
  end.

(** The concatenation of a sequence of sub-patterns. *)
Definition cat (rs : list regex) : regex := foldr Seq Eps rs.

End Re.

Import Re.


(** ** The local parser: [parseDate] and [localExtractor] *)

(** What the program reads from a valid [Date]: [getFullYear()],
    [getMonth()] (0 to 11) and [getDate()]. *)
Record DateFields : Type := {
  getFullYear : Z;
  getMonth : Z;
  getDate : Z
}.

(** A value that may be [undefined] is an [option]; [a || b] on such
    values keeps [a] when it is a non-empty string. *)
Definition truthy (v : option jsstring) : bool :=
  match v with Some s => truthy_str s | None => false end.

Definition or_default (v : option jsstring) (d : jsstring) : jsstring :=
  match v with
  | Some s => if truthy_str s then s else d
  | None => d
  end.

(** The value of [a || b]. *)
Definition first_truthy (a b : option jsstring) : option jsstring :=
  if truthy a then a else b.

(** [m?.[1]?.trim()] for the result [m] of [String.prototype.match]. *)
Definition capture1_trim (m : option captures) : option jsstring :=
  trim <$> (m ≫= group 1).

(** [/(\d{4})[-/.](\d{2})[-/.](\d{2})/] *)
Definition isoPattern : regex :=
  cat [Grp 1 (Cls [CDigit] 4 (Some 4%nat));
       one [chr "-"; chr "/"; chr "."];
       Grp 2 (Cls [CDigit] 2 (Some 2%nat));
       one [chr "-"; chr "/"; chr "."];
       Grp 3 (Cls [CDigit] 2 (Some 2%nat))].

(** [/(\d{1,2})\s+([A-Za-z]{3,})\s+(\d{4})/] *)
Definition friendlyPattern : regex :=
  cat [Grp 1 (Cls [CDigit] 1 (Some 2%nat));
       plus [CSpace];
       Grp 2 (Cls [CRange 65 90; CRange 97 122] 3 None);
       plus [CSpace];
       Grp 3 (Cls [CDigit] 4 (Some 4%nat))].

(** The five label patterns of [localExtractor]; all carry the [i] flag. *)
Inductive label : Type :=
| LName | LPassportNo | LDocumentID | LIssueDate | LIssuedOn.

Definition label_pattern (l : label) : regex :=
  match l with
  | LName =>
      (* /Name\s*[:\-]\s*([A-Za-z ,.'-]+)/i *)
      cat [lit "Name"; star [CSpace]; one [chr ":"; chr "-"]; star [CSpace];
           Grp 1 (plus [CRange 65 90; CRange 97 122; chr " "; chr ",";
                        chr "."; chr "'"; chr "-"])]
  | LPassportNo =>
      (* /Passport\s*No\.?\s*[:\-]?\s*([A-Z0-9]+)/i *)
      cat [lit "Passport"; star [CSpace]; lit "No"; opt [chr "."];
           star [CSpace]; opt [chr ":"; chr "-"]; star [CSpace];
           Grp 1 (plus [CRange 65 90; CRange 48 57])]
  | LDocumentID =>
      (* /Document\s*ID\s*[:\-]\s*([A-Z0-9]+)/i *)
      cat [lit "Document"; star [CSpace]; lit "ID"; star [CSpace];
           one [chr ":"; chr "-"]; star [CSpace];
           Grp 1 (plus [CRange 65 90; CRange 48 57])]
  | LIssueDate =>
      (* /Issue\s*Date\s*[:\-]\s*([\w\s.-]+)/i *)
      cat [lit "Issue"; star [CSpace]; lit "Date"; star [CSpace];
           one [chr ":"; chr "-"]; star [CSpace];
           Grp 1 (plus [CWord; CSpace; chr "."; chr "-"])]
  | LIssuedOn =>
      (* /Issued\s*on\s*([\w\s.-]+)/i *)
      cat [lit "Issued"; star [CSpace]; lit "on"; star [CSpace];
           Grp 1 (plus [CWord; CSpace; chr "."; chr "-"])]
  end.

(** The character class of the capturing group that ends a label pattern. *)
Definition label_class (l : label) : cset :=
  match l with
  | LName =>
      [CRange 65 90; CRange 97 122; chr " "; chr ","; chr "."; chr "'"; chr "-"]
  | LPassportNo | LDocumentID => [CRange 65 90; CRange 48 57]
  | LIssueDate | LIssuedOn => [CWord; CSpace; chr "."; chr "-"]
  end.

(** The fields of the object [localExtractor] returns. *)
Record ExtractionResult : Type := {
  applicantName : jsstring;
  documentId : jsstring;
  issueDate : jsstring;
  source : jsstring
}.

(** [localExtractor] evaluates its patterns lazily ([a || b] evaluates
    [b] only when [a] is falsy).  To state which patterns a run
    consults, the embedding threads the list of [rawText.match] calls
    made so far, in order. *)
Definition Log (A : Type) : Type := list label -> A * list label.

Definition ret {A} (a : A) : Log A := fun l => (a, l).

Definition bind {A B} (m : Log A) (k : A -> Log B) : Log B :=
  fun l => let (a, l') := m l in k a l'.

Declare Scope log_scope.
Delimit Scope log_scope with log.
Notation "'do' x <- m ; k" := (bind m (fun x => k))
  (at level 10, x name, m at level 100, k at level 200) : log_scope.
Local Open Scope log_scope.

(** The value of [rawText.match(pattern)?.[1]?.trim()]. *)
Definition capture (lb : label) (rawText : jsstring) : option jsstring :=
  capture1_trim (exec true (label_pattern lb) rawText).

(** [rawText.match(pattern)?.[1]?.trim()] *)
Definition consult (lb : label) (rawText : jsstring) : Log (option jsstring) :=
  fun l => (capture lb rawText, l ++ [lb]).

(** [a || b] *)
Definition or_else (a b : Log (option jsstring)) : Log (option jsstring) :=
  do x <- a; if truthy x then ret x else b.

Section Local.

(** [new Date(text)] followed by the validity test
    [!Number.isNaN(date.getTime())]: [None] is an invalid date.  How a
    text that is not in the ISO format parses is left to the host by
    ECMAScript (21.4.3.2). *)
Variable newDate : jsstring -> option DateFields.

Definition parseDate (value : jsstring) : option jsstring :=
  if negb (truthy_str value) then None
  else
    match exec false isoPattern value with
    | Some isoMatch =>
        let y := default [] (group 1 isoMatch) in
        let m := default [] (group 2 isoMatch) in
        let d := default [] (group 3 isoMatch) in
        Some (y ++ str "-" ++ m ++ str "-" ++ d)
    | None =>
        match exec false friendlyPattern value with
        | Some friendlyMatch =>
            let d := default [] (group 1 friendlyMatch) in
            let mName := default [] (group 2 friendlyMatch) in
            let y := default [] (group 3 friendlyMatch) in
            match newDate (mName ++ str " " ++ d ++ str ", " ++ y) with
            | Some date =>
                let month := padStart0 2 (string_of_Z (getMonth date + 1)) in
                let day := padStart0 2 (string_of_Z (getDate date)) in
                Some (string_of_Z (getFullYear date) ++ str "-" ++ month
                        ++ str "-" ++ day)
            | None => None
            end
        | None => None
        end
    end.

(** The value of [parseDate(rawText.match(pattern)?.[1]?.trim() || '')]. *)
Definition date_of (lb : label) (rawText : jsstring) : option jsstring :=
  parseDate (or_default (capture lb rawText) []).

(** [parseDate(rawText.match(pattern)?.[1]?.trim() || '')] *)
Definition consult_date (lb : label) (rawText : jsstring) : Log (option jsstring) :=
  do c <- consult lb rawText; ret (parseDate (or_default c [])).

Definition localExtractorM (rawText : jsstring) : Log ExtractionResult :=
  do name <- consult LName rawText;
  do passport <- or_else (consult LPassportNo rawText)
                         (consult LDocumentID rawText);
  do date <- or_else (consult_date LIssueDate rawText)
                     (consult_date LIssuedOn rawText);
  ret {| applicantName := or_default name (str "UNKNOWN");
         documentId := or_default passport (str "UNKNOWN");
         issueDate := or_default date (str "UNKNOWN");
         source := str "local-extractor" |}.

Definition UNKNOWN : jsstring := str "UNKNOWN".

Definition localExtractor (rawText : jsstring) : ExtractionResult :=
  fst (localExtractorM rawText []).

(** The patterns a run of [localExtractor] matches against [rawText]. *)
Definition consulted (rawText : jsstring) : list label :=
  snd (localExtractorM rawText []).

End Local.

Definition nl : string := String (ascii_of_nat 10) EmptyString.
Definition DEFAULT_TEXT : jsstring := str ("--- Passport OCR Mock Data ---" ++ nl ++ "Name: Jane Doe" ++ nl ++ "Passport No: X1234567" ++ nl ++ "Nationality: USA" ++ nl ++ "Issue Date: 2021-05-17" ++ nl ++ "Expiry Date: 2031-05-16" ++ nl ++ "Place of Issue: Washington D.C.").


(** ** JSON values and the remote service *)

#[warnings="-register-all"]
Inductive json : Type :=
| JNull
| JBool (b : bool)
| JNum (x : float)
| JStr (s : jsstring)
| JArr (xs : list json)
| JObj (m : gmap jsstring json).

(** An object of the program: property name to value. *)
Abbreviation jsobj := (gmap jsstring json).

(** ToBoolean: what [if (v)] and [!v] test. *)
Definition to_boolean (v : json) : bool :=
  match v with
  | JNull => false
  | JBool b => b
  | JNum x => negb (PrimFloat.is_zero x || PrimFloat.is_nan x)
  | JStr s => truthy_str s
  | JArr _ | JObj _ => true
  end.

(** [v?.name] for a property name that no prototype defines (the
    program reads [candidates], [content], [parts] and [text]); [None]
    is [undefined]. *)
Definition field (name : string) (v : json) : option json :=
  match v with
  | JObj m => m !! str name
  | _ => None
  end.

(** [v?.[0]] *)
Definition item0 (v : json) : option json :=
  match v with
  | JObj m => m !! str "0"
  | JArr xs => xs !! O
  | JStr (c :: _) => Some (JStr [c])
  | _ => None
  end.

(** [{ ...v }]: the own enumerable properties of [v]. *)
Definition spread (v : json) : jsobj :=
  match v with
  | JObj m => m
  | JArr xs => list_to_map (imap (fun i x => (string_of_Z (Z.of_nat i), x)) xs)
  | JStr s => list_to_map (imap (fun i c => (string_of_Z (Z.of_nat i), JStr [c])) s)
  | _ => ∅
  end.

(** The request [callGemini] hands to [fetch]; [body] is the value given
    to [JSON.stringify]. *)
Record Request : Type := {
  url : jsstring;
  method : jsstring;
  contentType : jsstring;
  body : json
}.

(** What [await fetch(...)] and [await response.json()] produce:
    [fetch] rejects, or a response arrives with a status and a body
    that parses ([Some]) or not ([None]). *)
Inductive fetch_result : Type :=
| Rejected
| Response (status : Z) (payload : option json).

(** [response.ok] *)
Definition ok (status : Z) : bool := ((200 <=? status) && (status <=? 299))%Z.

(** The exceptions of a remote call. *)
Inductive error : Type :=
| FetchRejected                (* fetch() rejected *)
| RequestFailed (status : Z)   (* Gemini request failed with status ... *)
| BodyRejected                 (* response.json() rejected *)
| EmptyResponse                (* Gemini returned an empty response *)
| ParseFailed.                 (* JSON.parse threw *)

(** The operations of a run that reach outside the program, in order. *)
Inductive event : Type :=
| EFetch (req : Request)
| EDelay (ms : Z)
| EConsoleError.

(** A computation that may throw, over the trace of events so far. *)
Definition IO (A : Type) : Type := list event -> (error + A) * list event.

Definition io_ret {A} (a : A) : IO A := fun t => (inr a, t).

Definition io_throw {A} (e : error) : IO A := fun t => (inl e, t).

Definition io_bind {A B} (m : IO A) (k : A -> IO B) : IO B :=
  fun t =>
    match m t with
    | (inr a, t') => k a t'
    | (inl e, t') => (inl e, t')
    end.

(** [try { m } catch (error) { h error }] *)
Definition try_catch {A} (m : IO A) (h : error -> IO A) : IO A :=
  fun t =>
    match m t with
    | (inr a, t') => (inr a, t')
    | (inl e, t') => h e t'
    end.

Declare Scope io_scope.
Delimit Scope io_scope with io.
Notation "'do' x <- m ; k" := (io_bind m (fun x => k))
  (at level 10, x name, m at level 100, k at level 200) : io_scope.
Notation "m ;; k" := (io_bind m (fun _ => k))
  (at level 100, k at level 200, right associativity) : io_scope.

Definition is_fetch (e : event) : bool :=
  match e with EFetch _ => true | _ => false end.

(** The number of requests issued in a trace. *)
Definition fetches (t : list event) : nat := length (List.filter is_fetch t).

(** ** [callGemini], [buildPrompt] and [handleProcess] *)

Section Remote.

Local Open Scope io_scope.

(** [JSON.parse(v)]: the argument is converted to a string and parsed;
    [None] when it throws. *)
Variable JSON_parse : json -> option json.

(** The remote service: the outcome of the request, given how many
    requests the run has issued before it. *)
Variable transport : nat -> Request -> fetch_result.

(** [new Date(text)], as in the local parser. *)
Variable newDate : jsstring -> option DateFields.

Definition fetch (req : Request) : IO fetch_result :=
  fun t => (inr (transport (fetches t) req), t ++ [EFetch req]).

(** [await delay(ms)] *)
Definition delay (ms : Z) : IO unit := fun t => (inr tt, t ++ [EDelay ms]).

Definition console_error : IO unit := fun t => (inr tt, t ++ [EConsoleError]).

Definition maxAttempts : nat := 3.

Definition endpoint : jsstring :=
  str "https://generativelanguage.googleapis.com/v1beta/models/gemini-2.5-flash-preview-09-2025:generateContent?key=".

Definition request (url prompt : jsstring) : Request :=
  {| url := url;
     method := str "POST";
     contentType := str "application/json";
     body :=
       JObj {[ str "contents" :=
                 JArr [JObj {[ str "parts" :=
                                 JArr [JObj {[ str "text" := JStr prompt ]}] ]}];
               str "generationConfig" :=
                 JObj {[ str "responseMimeType" := JStr (str "application/json") ]} ]} |}.

(** [payload?.candidates?.[0]?.content?.parts?.[0]?.text] *)
Definition response_text (payload : json) : option json :=
  candidates ← field "candidates" payload;
  candidate ← item0 candidates;
  content ← field "content" candidate;
  parts ← field "parts" content;
  part ← item0 parts;
  field "text" part.

(** What one attempt makes of the answer to its request: the statements
    of the [try] block after [await fetch(...)]. *)
Definition outcome (response : fetch_result) : error + json :=
  match response with
  | Rejected => inl FetchRejected
  | Response status payload =>
      if negb (ok status) then inl (RequestFailed status)
      else
        match payload with
        | None => inl BodyRejected
        | Some payload =>
            match response_text payload with
            | Some text =>
                if negb (to_boolean text) then inl EmptyResponse
                else
                  match JSON_parse text with
                  | Some v => inr v
                  | None => inl ParseFailed
                  end
            | None => inl EmptyResponse
            end
        end
  end.

(** The body of the [try] block: one attempt. *)
Definition attempt_once (url prompt : jsstring) : IO json :=
  do response <- fetch (request url prompt);
  match outcome response with
  | inr v => io_ret v
  | inl e => io_throw e
  end.

(** The [for] loop from [attempt] on; [fuel] bounds the iterations left
    ([maxAttempts + 1 - attempt] suffice). *)
Fixpoint attempts (fuel : nat) (url prompt : jsstring) (attempt : nat)
    (delayMs : Z) : IO json :=
  match fuel with
  | O => io_ret JNull
  | S fuel' =>
      if (attempt <=? maxAttempts)%nat then
        try_catch (attempt_once url prompt)
          (fun error =>
             if (attempt =? maxAttempts)%nat then io_throw error
             else
               delay delayMs ;;
               attempts fuel' url prompt (attempt + 1)%nat (delayMs * 2)%Z)
      else io_ret JNull
  end.

(** [apiKey] is [None] when the argument is [undefined]. *)
Definition callGemini (prompt : jsstring) (apiKey : option jsstring) : IO json :=
  if negb (truthy apiKey) then io_ret JNull
  else
    let url := endpoint ++ default [] apiKey in
    attempts (S maxAttempts) url prompt 1%nat 500%Z.

(** One entry of [schemaDescription]. *)
Record SchemaField : Type := {
  sf_field : string;
  sf_type : string;
  sf_format : option string;
  sf_description : string
}.

Definition schemaDescription : list SchemaField :=
  [ {| sf_field := "applicantName"; sf_type := "STRING"; sf_format := None;
       sf_description := "The full name of the applicant." |};
    {| sf_field := "documentId"; sf_type := "STRING"; sf_format := None;
       sf_description := "The unique document identification number." |};
    {| sf_field := "issueDate"; sf_type := "STRING";
       sf_format := Some "YYYY-MM-DD"%string;
       sf_description := "The date the document was issued." |} ].

(** [JSON.stringify] of the schema; none of its strings needs an escape. *)
Definition quoted (s : string) : jsstring := [34] ++ str s ++ [34].

Definition member (k v : string) : jsstring := quoted k ++ str ":" ++ quoted v.

Definition stringify_field (f : SchemaField) : jsstring :=
  str "{" ++ member "field" (sf_field f) ++ str "," ++ member "type" (sf_type f)
    ++ match sf_format f with
       | Some fmt => str "," ++ member "format" fmt
       | None => []
       end
    ++ str "," ++ member "description" (sf_description f) ++ str "}".

Fixpoint join (sep : jsstring) (l : list jsstring) : jsstring :=
  match l with
  | [] => []
  | [x] => x
  | x :: l' => x ++ sep ++ join sep l'
  end.

Definition stringify_schema (l : list SchemaField) : jsstring :=
  str "[" ++ join (str ",") (stringify_field <$> l) ++ str "]".

Definition buildPrompt (rawText : jsstring) : jsstring :=
  str "Act as an Intelligent Document Processing (IDP) engine. Only return a JSON object matching this schema: "
    ++ stringify_schema schemaDescription
    ++ str ". Use ISO date format (YYYY-MM-DD) for issueDate. Raw text to extract from:"
    ++ [10; 10] ++ rawText.

Inductive Tone : Type := info | success | warning | danger.

Record Status : Type := { tone : Tone; message : jsstring }.

(** The state of the [App] component, for a text that is a string: the
    initial text, every text the textarea sets, and a stored string.
    (The first effect passes whatever truthy value it finds under
    [rawText] to [setRawText]; [loadEffect] below keeps that value as
    it is, and [PageState] and [handleProcessOn] below cover a text
    that is not a string.) *)
Record AppState : Type := {
  rawText : jsstring;
  artifact : option jsobj;
  status : Status;
  processing : bool
}.

Definition setArtifact (a : jsobj) (st : AppState) : AppState :=
  {| rawText := rawText st; artifact := Some a; status := status st;
     processing := processing st |}.

Definition setStatus (s : Status) (st : AppState) : AppState :=
  {| rawText := rawText st; artifact := artifact st; status := s;
     processing := processing st |}.

Definition setProcessing (b : bool) (st : AppState) : AppState :=
  {| rawText := rawText st; artifact := artifact st; status := status st;
     processing := b |}.

(** The object literal [localExtractor] returns, as an object. *)
Definition obj_of_result (r : ExtractionResult) : jsobj :=
  {[ str "applicantName" := JStr (applicantName r);
     str "documentId" := JStr (documentId r);
     str "issueDate" := JStr (issueDate r);
     str "source" := JStr (source r) ]}.

Definition model_id : jsstring := str "gemini-2.5-flash-preview-09-2025".

(** The three variables the [try] statement of [handleProcess] sets. *)
Record Extraction : Type := {
  structured : jsobj;
  usedGemini : bool;
  fallbackReason : jsstring
}.

Definition extract (rawText : jsstring) (apiKey : jsstring) : IO Extraction :=
  let prompt := buildPrompt rawText in
  try_catch
    (do llmResult <- callGemini prompt (Some apiKey);
     if to_boolean llmResult then
       io_ret {| structured := <[str "source" := JStr model_id]> (spread llmResult);
                 usedGemini := true;
                 fallbackReason := [] |}
     else
       io_ret {| structured := obj_of_result (localExtractor newDate rawText);
                 usedGemini := false;
                 fallbackReason :=
                   str "Gemini API key not provided; used offline extractor." |})
    (fun error =>
       console_error ;;
       io_ret {| structured := obj_of_result (localExtractor newDate rawText);
                 usedGemini := false;
                 fallbackReason :=
                   str "Gemini API unavailable; used local extractor with the latest document text." |}).

(** The artifact of a run that used the local extractor: its result
    with [rawText] and [processedAt]. *)
Definition local_artifact (text now : jsstring) : jsobj :=
  <[str "processedAt" := JStr now]>
    (<[str "rawText" := JStr text]>
       (obj_of_result (localExtractor newDate text))).

(** [import.meta.env.VITE_GEMINI_API_KEY || ''] *)
Definition apiKey_of (env : option jsstring) : jsstring := or_default env [].

(** [handleProcess]; [now] is what [new Date().toISOString()] returns
    in this run. *)
Definition handleProcess (apiKey : jsstring) (now : jsstring) (st : AppState)
    : IO AppState :=
  let st := setProcessing true st in
  let st :=
    setStatus {| tone := info;
                 message := str "Processing document with IDP extraction pipeline..." |} st in
  do x <- extract (rawText st) apiKey;
  let result :=
    <[str "processedAt" := JStr now]>
      (<[str "rawText" := JStr (rawText st)]> (structured x)) in
  let st := setArtifact result st in
  let st :=
    if usedGemini x then
      setStatus {| tone := success;
                   message := str "Extraction completed using the Gemini API." |} st
    else if truthy_str (fallbackReason x) then
      setStatus {| tone := warning; message := fallbackReason x |} st
    else
      setStatus {| tone := success;
                   message := str "Extraction completed with the built-in parser (offline fallback)." |} st in
  io_ret (setProcessing false st).

End Remote.

(** The names of the schema's fields. *)
Definition schema_fields : gset jsstring :=
  list_to_set ((fun f => str (sf_field f)) <$> schemaDescription).

(** An extraction result carries the three schema fields and [source],
    and nothing else. *)
Definition carries_schema (o : jsobj) : Prop :=
  dom o = schema_fields ∪ {[ str "source" ]}.

(** The events of a call whose first [failures] attempts fail: a
    request, then for each failure the suspension and the next request,
    the suspension doubling from [delayMs]. *)
Fixpoint backoff (req : Request) (failures : nat) (delayMs : Z) : list event :=
  match failures with
  | O => [EFetch req]
  | S n => EFetch req :: EDelay delayMs :: backoff req n (delayMs * 2)%Z
  end.

(** The requests of a trace and its suspensions, in order. *)
Definition requests (t : list event) : list Request :=
  omap (fun e => match e with EFetch r => Some r | _ => None end) t.

Definition delays (t : list event) : list Z :=
  omap (fun e => match e with EDelay ms => Some ms | _ => None end) t.

(** ** Persistence: the two effects of [App]

    [localStorage] is a map from keys to strings.  Access to it may be
    refused and a write may be rejected (the quota); both make the call
    throw, and both are left to the host. *)

Definition STORAGE_KEY : jsstring := str "kyc_artifact_data".

(** What an effect does to the component: the state setters it calls
    and the errors it logs, in order. *)
Inductive action : Type :=
| SetRawText (v : json)
| SetArtifact (v : json)
| SetStatus (s : Status)
| ConsoleError.

(** A step of an effect that may throw ([None]), over the actions so far. *)
Definition Eff (A : Type) : Type := list action -> option A * list action.

Definition eff_ret {A} (a : A) : Eff A := fun l => (Some a, l).

Definition eff_bind {A B} (m : Eff A) (k : A -> Eff B) : Eff B :=
  fun l =>
    match m l with
    | (Some a, l') => k a l'
    | (None, l') => (None, l')
    end.

(** A call that throws when its result is [None]. *)
Definition eff_lift {A} (r : option A) : Eff A := fun l => (r, l).

Definition act (a : action) : Eff unit := fun l => (Some tt, l ++ [a]).

(** [try { m } catch (error) { console.error(...) }] *)
Definition try_log (m : Eff unit) : list action :=
  match m [] with
  | (Some _, l) => l
  | (None, l) => l ++ [ConsoleError]
  end.

Declare Scope eff_scope.
Delimit Scope eff_scope with eff.
Notation "'do' x <- m ; k" := (eff_bind m (fun x => k))
  (at level 10, x name, m at level 100, k at level 200) : eff_scope.
Notation "m ;; k" := (eff_bind m (fun _ => k))
  (at level 100, k at level 200, right associativity) : eff_scope.

(** [v.name] for a value [v] that [JSON.parse] returned: a TypeError on
    [null], the property or [undefined] otherwise. *)
Definition member_of (name : string) (v : json) : option (option json) :=
  match v with
  | JNull => None
  | _ => Some (field name v)
  end.

(** ToBoolean of a value that may be [undefined]. *)
Definition truthy_value (v : option json) : bool :=
  match v with Some x => to_boolean x | None => false end.

Definition loaded_status : Status :=
  {| tone := success; message := str "Loaded saved artifact from localStorage." |}.

(** The object [{ rawText, artifact }] of the second effect. *)
Definition persisted (text : jsstring) (artifact : option jsobj) : json :=
  JObj {[ str "rawText" := JStr text;
          str "artifact" := match artifact with
                            | Some a => JObj a
                            | None => JNull
                            end ]}.

Section Persistence.

Local Open Scope eff_scope.

Variable JSON_parse : json -> option json.

(** [JSON.stringify(v)] for a JSON value [v]. *)
Variable JSON_stringify : json -> jsstring.

(** Whether the page may use [localStorage] at all. *)
Variable storage_available : bool.

(** Whether the host accepts the write of a value under a key, given
    what is stored. *)
Variable storage_accepts : gmap jsstring jsstring -> jsstring -> jsstring -> bool.

(** [localStorage.getItem(key)]: [None] when it throws; a missing key
    gives [null]. *)
Definition getItem (store : gmap jsstring jsstring) (key : jsstring)
    : option (option jsstring) :=
  if storage_available then Some (store !! key) else None.

(** [localStorage.setItem(key, value)]: [None] when it throws. *)
Definition setItem (store : gmap jsstring jsstring) (key value : jsstring)
    : option (gmap jsstring jsstring) :=
  if storage_available && storage_accepts store key value
  then Some (<[key := value]> store)
  else None.

(** The first effect: what the component does with the stored value
    when it mounts. *)
Definition loadEffect (store : gmap jsstring jsstring) : list action :=
  try_log
    (do cached <- eff_lift (getItem store STORAGE_KEY);
     if truthy cached then
       do parsed <- eff_lift (JSON_parse (JStr (default [] cached)));
       do text <- eff_lift (member_of "rawText" parsed);
       (if truthy_value text then act (SetRawText (default JNull text))
        else eff_ret tt) ;;
       do saved <- eff_lift (member_of "artifact" parsed);
       if truthy_value saved then
         act (SetArtifact (default JNull saved)) ;;
         act (SetStatus loaded_status)
       else eff_ret tt
     else eff_ret tt).

(** The second effect: the write of the current text and artifact.
    It returns the store and what it logs. *)
Definition persistEffect (st : AppState) (store : gmap jsstring jsstring)
    : gmap jsstring jsstring * list action :=
  let payload := persisted (rawText st) (artifact st) in
  match setItem store STORAGE_KEY (JSON_stringify payload) with
  | Some store' => (store', [])
  | None => (store, [ConsoleError])
  end.

End Persistence.

(** ** [handleProcess] on a text that need not be a string

    The first effect hands any truthy stored value to [setRawText], so
    the text of the component can be a JSON value that is not a
    string.  [handleProcess] then still builds a prompt and calls the
    service, but [localExtractor] throws a TypeError on such a text
    ([rawText.match] is not a function). *)




Section Page.

Variable JSON_parse : json -> option json.
Variable transport : nat -> Request -> fetch_result.
Variable newDate : jsstring -> option DateFields.

(** ToString of a JSON value that is not a string (it never throws). *)
Variable ToString : json -> jsstring.






End Page.

(** ** A host for the examples

    The theorems below hold for every [Date], [JSON.parse] and remote
    service.  The closed examples need one of each: a [JSON.parse] for
    documents without escapes, fractions or exponents, and a [Date]
    that reads English month names. *)

Module Example.

Fixpoint skip_ws (s : jsstring) : jsstring :=
  match s with
  | c :: s' => if (c =? 32) || (c =? 9) || (c =? 10) || (c =? 13) then skip_ws s' else s
  | [] => []
  end.

(** The characters of a string literal after its opening quote. *)
Fixpoint string_body (s : jsstring) : option (jsstring * jsstring) :=
  match s with
  | [] => None
  | c :: s' =>
      if c =? 34 then Some ([], s')
      else if (c =? 92) || (c <? 32) then None
      else '(b, r) ← string_body s'; Some (c :: b, r)
  end.

Fixpoint digits (s : jsstring) : list N * jsstring :=
  match s with
  | c :: s' => if is_digit c then let (d, r) := digits s' in (c :: d, r) else ([], s)
  | [] => ([], [])
  end.

Definition float_of_digits (d : list N) : float :=
  PrimFloat.of_uint63
    (foldl (fun acc c => PrimInt63.add (PrimInt63.mul acc 10%uint63)
                           (Uint63.of_Z (Z.of_N (c - 48)))) 0%uint63 d).

(** An integer literal of at most 15 digits. *)
Definition number (s : jsstring) : option (json * jsstring) :=
  let (neg, s1) := match s with 45 :: r => (true, r) | _ => (false, s) end in
  let (d, r) := digits s1 in
  match d with
  | [] => None
  | c :: d' =>
      if ((c =? 48) && negb (Nat.eqb (length d') 0)) || (15 <? length d)%nat then None
      else
        match r with
        | 46 :: _ | 101 :: _ | 69 :: _ => None
        | _ =>
            let x := float_of_digits d in
            Some (JNum (if neg then PrimFloat.opp x else x), r)
        end
  end.

(** [item (sep item)* close], after the first item has been seen to exist. *)
Fixpoint items {A} (item : jsstring -> option (A * jsstring)) (close : N)
    (fuel : nat) (s : jsstring) : option (list A * jsstring) :=
  match fuel with
  | O => None
  | S fuel' =>
      '(x, r) ← item s;
      match skip_ws r with
      | c :: r' =>
          if c =? close then Some ([x], r')
          else if c =? 44 then '(xs, r'') ← items item close fuel' r'; Some (x :: xs, r'')
          else None
      | [] => None
      end
  end.

Fixpoint value (fuel : nat) (s : jsstring) : option (json * jsstring) :=
  match fuel with
  | O => None
  | S fuel' =>
      match skip_ws s with
      | 110 :: 117 :: 108 :: 108 :: r => Some (JNull, r)
      | 116 :: 114 :: 117 :: 101 :: r => Some (JBool true, r)
      | 102 :: 97 :: 108 :: 115 :: 101 :: r => Some (JBool false, r)
      | 34 :: r => '(b, r') ← string_body r; Some (JStr b, r')
      | 91 :: r =>
          match skip_ws r with
          | 93 :: r' => Some (JArr [], r')
          | _ => '(xs, r') ← items (value fuel') 93 (length r) r; Some (JArr xs, r')
          end
      | 123 :: r =>
          match skip_ws r with
          | 125 :: r' => Some (JObj ∅, r')
          | _ =>
              let property s :=
                match skip_ws s with
                | 34 :: s1 =>
                    '(k, s2) ← string_body s1;
                    match skip_ws s2 with
                    | 58 :: s3 => '(v, s4) ← value fuel' s3; Some ((k, v), s4)
                    | _ => None
                    end
                | _ => None
                end in
              '(kvs, r') ← items property 125 (length r) r;
              Some (JObj (foldl (fun m kv => <[kv.1 := kv.2]> m) ∅ kvs), r')
          end
      | r => number r
      end
  end.

Definition parse_text (s : jsstring) : option json :=
  '(v, r) ← value (S (length s)) s;
  match skip_ws r with [] => Some v | _ => None end.

(** [JSON.parse] of a string, [null] or a boolean. *)
Definition JSON_parse (v : json) : option json :=
  match v with
  | JStr s => parse_text s
  | JNull => Some JNull
  | JBool b => Some (JBool b)
  | _ => None
  end.

Definition months : list string :=
  ["jan"; "feb"; "mar"; "apr"; "may"; "jun"; "jul"; "aug"; "sep"; "oct"; "nov"; "dec"]%string.

Definition Z_of_digits (d : list N) : Z :=
  foldl (fun acc c => acc * 10 + Z.of_N (c - 48))%Z 0%Z d.

Definition leap (y : Z) : bool :=
  ((y mod 4 =? 0) && (negb (y mod 100 =? 0) || (y mod 400 =? 0)))%Z.

Definition days_in_month (y : Z) (m : nat) : Z :=
  match m with
  | 1%nat => if leap y then 29 else 28
  | 3%nat | 5%nat | 8%nat | 10%nat => 30
  | _ => 31
  end%Z.

(** [new Date(text)] for a text that starts with [Month day, year]: the
    month by its first three letters, a day that exists in it. *)
Definition newDate (text : jsstring) : option DateFields :=
  m ← match_here false
        (cat [Grp 1 (Cls [CRange 65 90; CRange 97 122] 3 None); one [chr " "];
              Grp 2 (Cls [CDigit] 1 (Some 2%nat)); lit ", ";
              Grp 3 (Cls [CDigit] 4 (Some 4%nat))]) text;
  name ← group 1 m; d ← group 2 m; y ← group 3 m;
  i ← list_find (fun mo => str mo = toLower <$> take 3 name) months;
  let year := Z_of_digits y in
  let day := Z_of_digits d in
  if ((1 <=? day) && (day <=? days_in_month year i.1))%Z
  then Some {| getFullYear := year; getMonth := Z.of_nat i.1; getDate := day |}
  else None.

(** A remote service that answers every request with the text [text]. *)
Definition answers (text : jsstring) : nat -> Request -> fetch_result :=
  fun _ _ =>
    Response 200
      (Some (JObj {[ str "candidates" :=
                       JArr [JObj {[ str "content" :=
                                       JObj {[ str "parts" :=
                                                 JArr [JObj {[ str "text" := JStr text ]}] ]} ]}] ]})).

(** A remote service that cannot be reached. *)
Definition unreachable : nat -> Request -> fetch_result := fun _ _ => Rejected.

(** A remote service that rejects every request with status 503. *)
Definition overloaded : nat -> Request -> fetch_result := fun _ _ => Response 503 None.

Definition initial (text : jsstring) : AppState :=
  {| rawText := text;
     artifact := None;
     status := {| tone := info;
                  message := str "Ready to extract structured fields from your document text." |};
     processing := false |}.

(** A text with the second alternative of both fields and without the
    first. *)
Definition second_alternatives : jsstring :=
  str "Document ID: ab12; issued on 2020.01.02".

(** A text whose Name capture and Issue Date capture are one space. *)
Definition blank_captures : jsstring := str "Name: |Issue Date: |".

(** [JSON.stringify] for documents of strings without escapes,
    booleans, [null], arrays and objects; the properties of an object
    in the order of the map.  A number is written as [null], as
    [JSON.stringify] writes the numbers that are not finite. *)
Fixpoint stringify (fuel : nat) (v : json) : jsstring :=
  match fuel with
  | O => str "null"
  | S fuel' =>
      match v with
      | JNull | JNum _ => str "null"
      | JBool true => str "true"
      | JBool false => str "false"
      | JStr s => [34] ++ s ++ [34]
      | JArr xs => str "[" ++ join (str ",") (stringify fuel' <$> xs) ++ str "]"
      | JObj m =>
          str "{"
            ++ join (str ",")
                 ((fun kv => [34] ++ kv.1 ++ [34] ++ str ":" ++ stringify fuel' kv.2)
                    <$> map_to_list m)
            ++ str "}"
      end
  end.

Definition JSON_stringify (v : json) : jsstring := stringify 8 v.

(** A remote service that rejects the first two requests with status
    503 and then answers with the text [text]. *)
Definition recovering (text : jsstring) : nat -> Request -> fetch_result :=
  fun n req => if (n <? 2)%nat then Response 503 None else answers text n req.

(** The JSON text of an object with the one property [source]. *)
Definition spoofed_source : jsstring :=
  str "{" ++ [34] ++ str "source" ++ [34] ++ str ":" ++ [34] ++ str "elsewhere"
    ++ [34] ++ str "}".

(** A state with a text of one line and the artifact of its local
    extraction. *)
Definition extracted : AppState :=
  {| rawText := str "Name: Jane Doe";
     artifact := Some (local_artifact newDate (str "Name: Jane Doe")
                         (str "2026-01-01T00:00:00.000Z"));
     status := {| tone := warning;
                  message := str "Gemini API key not provided; used offline extractor." |};
     processing := false |}.



(** A host that accepts every write. *)
Definition roomy : gmap jsstring jsstring -> jsstring -> jsstring -> bool :=
  fun _ _ _ => true.

(** A host whose storage is full. *)
Definition full : gmap jsstring jsstring -> jsstring -> jsstring -> bool :=
  fun _ _ _ => false.

End Example.

(** * Properties *)

(** ** The matcher *)

Section Matcher.

Variable icase : bool.

Lemma rep_zero {A} cs (s : jsstring) (k : jsstring -> option A) :
  rep icase cs 0 (Some O) s k = k s.
Proof. destruct s; reflexivity. Qed.

(** A success of the repeat matcher is a success of its continuation
    after a run of characters of the class, of a length within the
    bounds. *)
Lemma rep_sound {A} cs (s : jsstring) :
  forall mn mx (k : jsstring -> option A) r,
    rep icase cs mn mx s k = Some r ->
    exists s1 s2,
      s = s1 ++ s2
      /\ Forall (fun x => cset_matches icase cs x = true) s1
      /\ (mn <= length s1)%nat
      /\ (forall n, mx = Some n -> (length s1 <= n)%nat)
      /\ k s2 = Some r.
Proof.
  induction s as [|c s IH]; intros mn mx k r H; simpl in H.
  - destruct mn; [|discriminate].
    exists [], []. repeat split; auto. intros; simpl; lia.
  - assert (Hstop : (if Nat.eqb mn 0 then k (c :: s) else None) = Some r ->
              exists s1 s2, c :: s = s1 ++ s2
                /\ Forall (fun x => cset_matches icase cs x = true) s1
                /\ (mn <= length s1)%nat
                /\ (forall n, mx = Some n -> (length s1 <= n)%nat)
                /\ k s2 = Some r).
    { destruct mn; [|discriminate]. intros Hk.
      exists [], (c :: s). repeat split; auto. intros; simpl; lia. }
    destruct (more_allowed mx && cset_matches icase cs c) eqn:E; [|auto].
    apply andb_prop in E as [Hmx Hc].
    destruct (rep icase cs (Nat.pred mn) (Nat.pred <$> mx) s k) eqn:R; [|auto].
    injection H as ->.
    apply IH in R as (s1 & s2 & -> & Hall & Hmn & Hbound & Hk).
    exists (c :: s1), s2. repeat split; auto.
    + simpl; lia.
    + intros n ->. simpl in *. destruct n; [discriminate|].
      specialize (Hbound n eq_refl). lia.
Qed.

(** The matcher is sound for [Matches]: when it succeeds, the pattern
    matches a prefix of the input and the continuation succeeded on
    the rest. *)
Lemma run_sound r :
  forall s caps k res,
    run icase r s caps k = Some res ->
    exists s1 s2 caps',
      s = s1 ++ s2 /\ Matches icase r s1 caps caps' /\ k s2 caps' = Some res.
Proof.
  induction r as [|cs mn mx|a IHa b IHb|n a IHa]; intros s caps k res H; simpl in H.
  - exists [], s, caps. repeat split; auto. constructor.
  - apply rep_sound in H as (s1 & s2 & -> & Hall & Hmn & Hmx & Hk).
    exists s1, s2, caps. repeat split; auto. by constructor.
  - apply IHa in H as (s1 & s2 & c1 & -> & Ha & H).
    apply IHb in H as (s3 & s4 & c2 & -> & Hb & H).
    exists (s1 ++ s3), s4, c2. rewrite <- app_assoc. repeat split; auto.
    econstructor; eauto.
  - apply IHa in H as (s1 & s2 & c1 & -> & Ha & H).
    rewrite length_app, Nat.add_sub, take_app_length in H.
    exists s1, s2, ((n, s1) :: c1). repeat split; auto. by constructor.
Qed.

Lemma match_here_sound r s m :
  match_here icase r s = Some m ->
  exists s1 s2 caps,
    s = s1 ++ s2 /\ Matches icase r s1 [] caps /\ m = (O, s1) :: caps.
Proof.
  unfold match_here. intros H.
  apply run_sound in H as (s1 & s2 & caps & -> & Hm & H).
  rewrite length_app, Nat.add_sub, take_app_length in H.
  injection H as <-. eauto 6.
Qed.

(** [s.match(r)] returns the captures of a match of [r] somewhere in [s]. *)
Lemma exec_sound r s :
  forall m,
    exec icase r s = Some m ->
    exists pre s1 post caps,
      s = pre ++ s1 ++ post /\ Matches icase r s1 [] caps /\ m = (O, s1) :: caps.
Proof.
  induction s as [|c s IH]; intros m H; simpl in H.
  - destruct (match_here icase r []) eqn:E; [|discriminate].
    injection H as ->. apply match_here_sound in E as (s1 & s2 & caps & Hs & Hm & ->).
    exists [], s1, s2, caps. auto.
  - destruct (match_here icase r (c :: s)) eqn:E.
    + injection H as ->. apply match_here_sound in E as (s1 & s2 & caps & Hs & Hm & ->).
      exists [], s1, s2, caps. auto.
    + apply IH in H as (pre & s1 & post & caps & -> & Hm & ->).
      exists (c :: pre), s1, post, caps. auto.
Qed.

(** A bounded repetition [{n,n}] consumes a run of [n] characters of the class. *)
Lemma rep_exact {A} cs (l s : jsstring) (k : jsstring -> option A) :
  forall n,
    length l = n ->
    Forall (fun x => cset_matches icase cs x = true) l ->
    rep icase cs n (Some n) (l ++ s) k = k s.
Proof.
  induction l as [|c l IH]; intros n Hn Hl; simpl in Hn; subst n.
  - apply rep_zero.
  - apply Forall_cons in Hl as [Hc Hl].
    cbn [app rep more_allowed andb length Nat.pred fmap option_fmap option_map Nat.eqb].
    rewrite Hc, (IH (length l) eq_refl Hl).
    by destruct (k s).
Qed.

Lemma take_prefix (l s : jsstring) : take (length (l ++ s) - length s) (l ++ s) = l.
Proof. by rewrite length_app, Nat.add_sub, take_app_length. Qed.

End Matcher.

(** ** Captures of the program's patterns *)

Ltac invert H := inversion H; subst; clear H.

(** Decompose a hypothesis that a concrete pattern matches. *)
Ltac inv_matches :=
  repeat match goal with
  | H : Matches _ (cat _) _ _ _ |- _ => unfold cat in H; simpl in H
  | H : Matches _ (one _) _ _ _ |- _ => unfold one in H
  | H : Matches _ (plus _) _ _ _ |- _ => unfold plus in H
  | H : Matches _ (Seq _ _) _ _ _ |- _ => invert H
  | H : Matches _ (Grp _ _) _ _ _ |- _ => invert H
  | H : Matches _ Eps _ _ _ |- _ => invert H
  | H : Matches _ (Cls _ _ _) _ _ _ |- _ => invert H
  end.

Lemma length_exactly {A} (s : list A) n :
  (n <= length s)%nat -> (forall k, Some n = Some k -> (length s <= k)%nat) ->
  length s = n.
Proof. intros H1 H2. specialize (H2 n eq_refl). lia. Qed.

(** A pattern that ends with the group [(class+)] captures a non-empty
    run of characters of the class. *)
Lemma last_group_capture icase pre cs :
  forall s c0 c1,
    Matches icase (cat (pre ++ [Grp 1 (plus cs)])) s c0 c1 ->
    exists g c',
      c1 = (1%nat, g) :: c' /\ g <> []
      /\ Forall (fun x => cset_matches icase cs x = true) g.
Proof.
  induction pre as [|p pre IH]; intros s c0 c1 H.
  - inv_matches. eexists _, _. repeat split; eauto.
    intros ->. simpl in *. lia.
  - simpl in H. invert H. eauto.
Qed.

Lemma label_pattern_shape lb :
  exists pre, label_pattern lb = cat (pre ++ [Grp 1 (plus (label_class lb))]).
Proof.
  destruct lb; simpl.
  - exists [lit "Name"; star [CSpace]; one [chr ":"; chr "-"]; star [CSpace]].
    reflexivity.
  - exists [lit "Passport"; star [CSpace]; lit "No"; opt [chr "."];
            star [CSpace]; opt [chr ":"; chr "-"]; star [CSpace]].
    reflexivity.
  - exists [lit "Document"; star [CSpace]; lit "ID"; star [CSpace];
            one [chr ":"; chr "-"]; star [CSpace]].
    reflexivity.
  - exists [lit "Issue"; star [CSpace]; lit "Date"; star [CSpace];
            one [chr ":"; chr "-"]; star [CSpace]].
    reflexivity.
  - exists [lit "Issued"; star [CSpace]; lit "on"; star [CSpace]].
    reflexivity.
Qed.

(** When a label pattern matches, its group 1 took part in the match
    and holds a non-empty run of characters of the label's class. *)
Lemma label_match lb rawText m :
  exec true (label_pattern lb) rawText = Some m ->
  exists g,
    group 1 m = Some g /\ g <> []
    /\ Forall (fun x => cset_matches true (label_class lb) x = true) g.
Proof.
  intros H. destruct (label_pattern_shape lb) as [pre E]. rewrite E in H.
  apply exec_sound in H as (p & s1 & q & caps & _ & Hm & ->).
  apply last_group_capture in Hm as (g & c' & -> & Hg & Hall).
  exists g. auto.
Qed.

Lemma trimStart_id (s : jsstring) :
  Forall (fun x => is_space x = false) s -> trimStart s = s.
Proof. destruct 1 as [|c s Hc _]; simpl; [reflexivity | by rewrite Hc]. Qed.

Lemma trim_id (s : jsstring) :
  Forall (fun x => is_space x = false) s -> trim s = s.
Proof.
  intros H. unfold trim, trimEnd. rewrite (trimStart_id s H).
  rewrite trimStart_id, rev_involutive; [reflexivity|].
  by apply Forall_rev.
Qed.

(** A character of [[A-Z0-9]] under the [i] flag is not white space. *)
Lemma alnum_not_space c :
  cset_matches true [CRange 65 90; CRange 48 57] c = true -> is_space c = false.
Proof.
  unfold cset_matches, item_matches, existsb, in_range, toUpper, toLower,
    is_lower, is_upper, in_range, is_space.
  intros H.
  assert (Hc : 48 <= c <= 122).
  { repeat match type of H with
           | context [if ?b then _ else _] => destruct b eqn:?
           end;
    repeat match goal with
           | H : _ || _ = true |- _ => apply orb_prop in H as [H|H]
           | H : _ && _ = true |- _ => apply andb_prop in H as [? ?]
           | H : (_ <=? _) = true |- _ => apply N.leb_le in H
           | H : false = true |- _ => discriminate H
           end; lia. }
  unfold is_space.
  repeat match goal with
         | |- context [?a <=? ?b] => destruct (N.leb_spec a b); try lia
         | |- context [?a =? ?b] => destruct (N.eqb_spec a b); try lia
         end.
Qed.

(** ** The local extractor *)

Section LocalFacts.

Arguments label_pattern : simpl never.

Variable newDate : jsstring -> option DateFields.

Abbreviation extractor := (localExtractor newDate).
Abbreviation asked := (consulted newDate).
Abbreviation date := (date_of newDate).

(** [localExtractor] in closed form: its result and the patterns it
    consults. *)
Lemma localExtractor_unfold rawText :
  localExtractorM newDate rawText []
  = ({| applicantName := or_default (capture LName rawText) UNKNOWN;
        documentId :=
          or_default (first_truthy (capture LPassportNo rawText)
                                   (capture LDocumentID rawText)) UNKNOWN;
        issueDate :=
          or_default (first_truthy (date LIssueDate rawText)
                                   (date LIssuedOn rawText)) UNKNOWN;
        source := str "local-extractor" |},
     [LName; LPassportNo]
       ++ (if truthy (capture LPassportNo rawText) then [] else [LDocumentID])
       ++ [LIssueDate]
       ++ (if truthy (date LIssueDate rawText) then [] else [LIssuedOn])).
Proof.
  unfold localExtractorM, or_else, consult_date, consult, bind, ret,
    first_truthy, date_of.
  simpl.
  destruct (truthy (capture LPassportNo rawText));
    destruct (truthy (parseDate newDate (or_default (capture LIssueDate rawText) [])));
    reflexivity.
Qed.

Lemma or_default_truthy v d : truthy v = true -> Some (or_default v d) = v.
Proof. destruct v as [[|c s]|]; simpl; intros; congruence. Qed.

Lemma or_default_falsy v d : truthy v = false -> or_default v d = d.
Proof. destruct v as [[|c s]|]; simpl; intros; congruence. Qed.

Lemma or_default_nonempty v d : d <> [] -> or_default v d <> [].
Proof. destruct v as [[|c s]|]; simpl; intros; congruence. Qed.

(** A match of the Passport No or of the Document ID pattern yields a
    non-empty value: the captured run has no white space to trim. *)
Lemma document_capture_truthy lb rawText :
  lb = LPassportNo \/ lb = LDocumentID ->
  is_Some (exec true (label_pattern lb) rawText) ->
  truthy (capture lb rawText) = true.
Proof.
  intros Hlb [m Hm]. unfold capture, capture1_trim. rewrite Hm. simpl.
  apply label_match in Hm as (g & -> & Hg & Hall). simpl.
  assert (Hcls : label_class lb = [CRange 65 90; CRange 48 57])
    by (destruct Hlb; subst; reflexivity).
  rewrite Hcls in Hall.
  rewrite trim_id.
  - destruct g; [congruence | reflexivity].
  - eapply Forall_impl; [exact Hall|]. intros c. apply alnum_not_space.
Qed.

(** So the capture of these two patterns never trims to the empty
    string. *)
Lemma document_capture_not_empty lb rawText :
  lb = LPassportNo \/ lb = LDocumentID ->
  capture lb rawText <> Some [].
Proof.
  intros Hlb H.
  destruct (exec true (label_pattern lb) rawText) as [m|] eqn:E.
  - pose proof (document_capture_truthy lb rawText Hlb (ex_intro _ m E)) as T.
    rewrite H in T. discriminate T.
  - unfold capture in H. rewrite E in H. discriminate H.
Qed.

Lemma truthy_str_app (a b : jsstring) c : truthy_str (a ++ c :: b) = true.
Proof. destruct a; reflexivity. Qed.

(** [parseDate] never returns the empty string: its result is falsy
    only when it is [undefined]. *)
Lemma parseDate_truthy value :
  truthy (parseDate newDate value) = false -> parseDate newDate value = None.
Proof.
  unfold parseDate.
  destruct (negb (truthy_str value)); [reflexivity|].
  destruct (exec false isoPattern value) as [m|].
  { simpl. rewrite truthy_str_app. discriminate. }
  destruct (exec false friendlyPattern value) as [m|]; [|reflexivity].
  destruct (newDate _) as [d|]; [|reflexivity].
  simpl. rewrite truthy_str_app. discriminate.
Qed.

Lemma consulted_unfold rawText :
  asked rawText
  = [LName; LPassportNo]
      ++ (if truthy (capture LPassportNo rawText) then [] else [LDocumentID])
      ++ [LIssueDate]
      ++ (if truthy (date LIssueDate rawText) then [] else [LIssuedOn]).
Proof. unfold consulted. by rewrite localExtractor_unfold. Qed.

Lemma extractor_unfold rawText :
  extractor rawText
  = {| applicantName := or_default (capture LName rawText) UNKNOWN;
       documentId :=
         or_default (first_truthy (capture LPassportNo rawText)
                                  (capture LDocumentID rawText)) UNKNOWN;
       issueDate :=
         or_default (first_truthy (date LIssueDate rawText)
                                  (date LIssuedOn rawText)) UNKNOWN;
       source := str "local-extractor" |}.
Proof. unfold localExtractor. by rewrite localExtractor_unfold. Qed.

(** Membership in the list of consulted patterns, by cases. *)
Ltac elem_cases H :=
  simpl in H;
  repeat (apply elem_of_cons in H as [H|H]; [try discriminate H|]);
  try (by apply elem_of_nil in H).

(** C4. [localExtractor] is a total function of its input: it returns
    a result for every text and has no failing path.  A field for which
    no label pattern yields a value is the placeholder, no field is ever
    the empty string, and the empty text gives the placeholder in all
    three fields. *)
Theorem localExtractor_total_unknown rawText :
  (truthy (capture LName rawText) = false ->
     applicantName (extractor rawText) = UNKNOWN)
  /\ (truthy (capture LPassportNo rawText) = false ->
      truthy (capture LDocumentID rawText) = false ->
      documentId (extractor rawText) = UNKNOWN)
  /\ (date LIssueDate rawText = None ->
      date LIssuedOn rawText = None ->
      issueDate (extractor rawText) = UNKNOWN)
  /\ (applicantName (extractor rawText) <> []
      /\ documentId (extractor rawText) <> []
      /\ issueDate (extractor rawText) <> [])
  /\ extractor []
     = {| applicantName := str "UNKNOWN"; documentId := str "UNKNOWN";
          issueDate := str "UNKNOWN"; source := str "local-extractor" |}.
Proof.
  rewrite extractor_unfold. cbn [applicantName documentId issueDate].
  unfold first_truthy.
  repeat split.
  - apply or_default_falsy.
  - intros ->. apply or_default_falsy.
  - by intros -> ->.
  - by apply or_default_nonempty.
  - by apply or_default_nonempty.
  - by apply or_default_nonempty.
Qed.

(** A date that [parseDate] returns is truthy. *)
Lemma date_of_truthy lb rawText d :
  date lb rawText = Some d -> truthy (date lb rawText) = true.
Proof.
  intros Hd. destruct (truthy (date lb rawText)) eqn:E; [done|].
  apply parseDate_truthy in E. unfold date_of in Hd. congruence.
Qed.

(** C7. The label patterns are consulted in the order Name, Passport
    No, Document ID, Issue Date, Issued on, and the first alternative
    that succeeds decides the field.  When the Passport No pattern
    matches, the Document ID pattern is not consulted and the field is
    the trimmed Passport No capture; when it does not match, the
    Document ID pattern is consulted and decides the field.  The
    Issued on pattern is consulted exactly when the Issue Date capture
    does not normalize to a date; a date that the Issue Date capture
    normalizes to is the field, and otherwise the Issued on capture
    decides it.  The list of the patterns consulted is given in full. *)
Theorem first_alternative_wins rawText :
  sublist (asked rawText) [LName; LPassportNo; LDocumentID; LIssueDate; LIssuedOn]
  /\ (is_Some (exec true (label_pattern LPassportNo) rawText) ->
      (LDocumentID ∉ asked rawText)
      /\ Some (documentId (extractor rawText)) = capture LPassportNo rawText)
  /\ (LIssuedOn ∈ asked rawText -> date LIssueDate rawText = None)
  /\ (forall d, date LIssueDate rawText = Some d ->
        (LIssuedOn ∉ asked rawText) /\ issueDate (extractor rawText) = d)
  /\ asked rawText
     = [LName; LPassportNo]
         ++ match exec true (label_pattern LPassportNo) rawText with
            | Some _ => []
            | None => [LDocumentID]
            end
         ++ [LIssueDate]
         ++ match date LIssueDate rawText with
            | Some _ => []
            | None => [LIssuedOn]
            end
  /\ (exec true (label_pattern LPassportNo) rawText = None ->
      (LDocumentID ∈ asked rawText)
      /\ documentId (extractor rawText)
         = or_default (capture LDocumentID rawText) UNKNOWN
      /\ (is_Some (exec true (label_pattern LDocumentID) rawText) ->
          Some (documentId (extractor rawText)) = capture LDocumentID rawText))
  /\ (date LIssueDate rawText = None ->
      (LIssuedOn ∈ asked rawText)
      /\ issueDate (extractor rawText)
         = or_default (date LIssuedOn rawText) UNKNOWN
      /\ (forall d, date LIssuedOn rawText = Some d ->
            issueDate (extractor rawText) = d))
  /\ applicantName (extractor rawText) = or_default (capture LName rawText) UNKNOWN.
Proof.
  rewrite consulted_unfold, extractor_unfold.
  cbn [applicantName documentId issueDate].
  assert (Hno : exec true (label_pattern LPassportNo) rawText = None ->
                truthy (capture LPassportNo rawText) = false).
  { intros H. unfold capture. by rewrite H. }
  split; [|split; [|split; [|split; [|split; [|split; [|split]]]]]].
  - destruct (truthy (capture LPassportNo rawText)), (truthy (date LIssueDate rawText));
      simpl; repeat first [apply sublist_skip | apply sublist_cons | apply sublist_nil].
  - intros Hm.
    apply (document_capture_truthy LPassportNo) in Hm; [|by left].
    unfold first_truthy. rewrite Hm. split.
    + destruct (truthy (date LIssueDate rawText)); intros H; elem_cases H.
    + by apply or_default_truthy.
  - intros H. apply parseDate_truthy.
    destruct (truthy (date LIssueDate rawText)) eqn:E; [|done].
    destruct (truthy (capture LPassportNo rawText)); elem_cases H.
  - intros d Hd.
    pose proof (date_of_truthy _ _ _ Hd) as E.
    unfold first_truthy. rewrite E. split.
    + destruct (truthy (capture LPassportNo rawText)); intros H; elem_cases H.
    + pose proof (or_default_truthy _ UNKNOWN E) as Hv. congruence.
  - assert (E1 : truthy (capture LPassportNo rawText)
                 = match exec true (label_pattern LPassportNo) rawText with
                   | Some _ => true
                   | None => false
                   end).
    { destruct (exec true (label_pattern LPassportNo) rawText) as [m|] eqn:E.
      - apply (document_capture_truthy LPassportNo); [by left | by rewrite E; eexists].
      - by apply Hno. }
    assert (E2 : truthy (date LIssueDate rawText)
                 = match date LIssueDate rawText with
                   | Some _ => true
                   | None => false
                   end).
    { destruct (date LIssueDate rawText) as [d|] eqn:E; [|done].
      rewrite <- E. by apply (date_of_truthy _ _ d). }
    rewrite E1, E2.
    by destruct (exec true (label_pattern LPassportNo) rawText),
                (date LIssueDate rawText).
  - intros H. unfold first_truthy. rewrite (Hno H). split; [|split; [done|]].
    + destruct (truthy (date LIssueDate rawText)); simpl;
        repeat first [apply list_elem_of_here | apply list_elem_of_further].
    + intros Hm. apply or_default_truthy.
      apply (document_capture_truthy LDocumentID); [by right | done].
  - intros H. unfold first_truthy. rewrite H. cbn [truthy].
    split; [|split; [done|]].
    + destruct (truthy (capture LPassportNo rawText)); simpl;
        repeat first [apply list_elem_of_here | apply list_elem_of_further].
    + intros d Hd. pose proof (date_of_truthy _ _ _ Hd) as E.
      pose proof (or_default_truthy _ UNKNOWN E) as Hv. congruence.
  - reflexivity.
Qed.

(** C10. A capture that trims to the empty string counts as no match.
    Whether the Name capture is absent or empty, the name is the
    placeholder.  Whether the first alternative of documentId or of
    issueDate is absent or empty, the second alternative is consulted,
    and when that one is absent or empty in turn the field is the
    placeholder, never the empty string. *)
Theorem empty_capture_is_no_match rawText :
  (truthy (capture LName rawText) = false ->
     applicantName (extractor rawText) = UNKNOWN)
  /\ (truthy (capture LPassportNo rawText) = false ->
      LDocumentID ∈ asked rawText
      /\ documentId (extractor rawText)
         = or_default (capture LDocumentID rawText) UNKNOWN)
  /\ (truthy (capture LIssueDate rawText) = false ->
      LIssuedOn ∈ asked rawText
      /\ issueDate (extractor rawText)
         = or_default (date LIssuedOn rawText) UNKNOWN
      /\ (truthy (capture LIssuedOn rawText) = false ->
          issueDate (extractor rawText) = UNKNOWN)).
Proof.
  rewrite consulted_unfold, extractor_unfold.
  cbn [applicantName documentId issueDate]. unfold first_truthy.
  split; [|split].
  - apply or_default_falsy.
  - intros ->. split; [|done].
    destruct (truthy (date LIssueDate rawText)); simpl;
      do 2 apply list_elem_of_further; apply list_elem_of_here.
  - intros H.
    assert (Hd : date LIssueDate rawText = None).
    { unfold date_of. by rewrite (or_default_falsy _ [] H). }
    rewrite Hd. simpl. split; [|split; [done|]].
    + destruct (truthy (capture LPassportNo rawText)); simpl;
        repeat first [apply list_elem_of_here | apply list_elem_of_further].
    + intros H2. unfold date_of. by rewrite (or_default_falsy _ [] H2).
Qed.

(** What the ISO pattern matches: four digits, a separator, two digits,
    a separator, two digits, captured as groups 1 to 3. *)
Lemma isoPattern_match s c :
  Matches false isoPattern s [] c ->
  exists y a mo b d,
    s = y ++ a :: mo ++ b :: d
    /\ c = [(3%nat, d); (2%nat, mo); (1%nat, y)]
    /\ (length y = 4%nat /\ Forall (fun x => is_digit x = true) y)
    /\ (length mo = 2%nat /\ Forall (fun x => is_digit x = true) mo)
    /\ (length d = 2%nat /\ Forall (fun x => is_digit x = true) d)
    /\ a ∈ str "-/." /\ b ∈ str "-/.".
Proof.
  intros H. unfold isoPattern in H. inv_matches.
  repeat match goal with
         | H : (?n <= length ?l)%nat, H' : forall k, Some ?n = Some k -> _ |- _ =>
             pose proof (length_exactly l n H H'); clear H H'
         end.
  repeat match goal with
         | H : length ?l = 1%nat |- _ =>
             destruct l as [|? [|? ?]]; try discriminate H; clear H
         end.
  repeat match goal with
         | H : Forall _ [_] |- _ => apply Forall_inv in H
         end.
  assert (Hsep : forall x,
             cset_matches false [chr "-"; chr "/"; chr "."] x = true ->
             x ∈ str "-/.").
  { intros x Hx. unfold cset_matches, existsb, item_matches, chr in Hx.
    rewrite ?andb_false_l, ?orb_false_r in Hx.
    apply orb_prop in Hx as [Hx|Hx]; [|apply orb_prop in Hx as [Hx|Hx]];
      apply N.eqb_eq in Hx; subst x; cbn [str];
      repeat first [apply list_elem_of_here | apply list_elem_of_further]. }
  assert (Hdig : forall l,
             Forall (fun x => cset_matches false [CDigit] x = true) l ->
             Forall (fun x => is_digit x = true) l).
  { intros l Hl. eapply Forall_impl; [exact Hl|]. intros x Hx.
    unfold cset_matches, existsb, item_matches in Hx.
    by rewrite orb_false_r in Hx. }
  rewrite app_nil_r. simpl.
  eexists _, _, _, _, _. repeat split; eauto.
Qed.

(** C5. When the text contains a numeric date (four digits, two
    digits, two digits, separated by [-], [/] or [.]), [parseDate]
    returns the three captured groups joined by hyphens, whatever their
    values. *)
Theorem parseDate_numeric value m :
  exec false isoPattern value = Some m ->
  exists pre y a mo b d post,
    value = pre ++ (y ++ a :: mo ++ b :: d) ++ post
    /\ (group 1 m = Some y /\ group 2 m = Some mo /\ group 3 m = Some d)
    /\ (length y = 4%nat /\ Forall (fun x => is_digit x = true) y)
    /\ (length mo = 2%nat /\ Forall (fun x => is_digit x = true) mo)
    /\ (length d = 2%nat /\ Forall (fun x => is_digit x = true) d)
    /\ a ∈ str "-/." /\ b ∈ str "-/."
    /\ parseDate newDate value = Some (y ++ str "-" ++ mo ++ str "-" ++ d).
Proof.
  intros H. pose proof H as Hs.
  apply exec_sound in Hs as (pre & s1 & post & caps & -> & Hm & ->).
  apply isoPattern_match in Hm as (y & a & mo & b & d & -> & -> & Hy & Hmo & Hd & Ha & Hb).
  exists pre, y, a, mo, b, d, post. repeat split; try tauto.
  unfold parseDate. rewrite H.
  destruct y as [|y0 y]; [by destruct Hy|].
  by destruct pre.
Qed.

(** A text that starts with a numeric date: the date passes through. *)
Lemma parseDate_numeric_prefix y a mo b d post :
  length y = 4%nat -> Forall (fun x => is_digit x = true) y ->
  length mo = 2%nat -> Forall (fun x => is_digit x = true) mo ->
  length d = 2%nat -> Forall (fun x => is_digit x = true) d ->
  a ∈ str "-/." -> b ∈ str "-/." ->
  parseDate newDate (y ++ a :: mo ++ b :: d ++ post)
  = Some (y ++ str "-" ++ mo ++ str "-" ++ d).
Proof.
  intros Ly Hy Lmo Hmo Ld Hd Ha Hb.
  assert (Hsep : forall x, x ∈ str "-/." ->
            cset_matches false [chr "-"; chr "/"; chr "."] x = true).
  { intros x Hx. cbn [str] in Hx.
    repeat (apply elem_of_cons in Hx as [->|Hx]; [reflexivity|]).
    by apply elem_of_nil in Hx. }
  apply Hsep in Ha, Hb.
  assert (Hdig : forall l, Forall (fun x => is_digit x = true) l ->
            Forall (fun x => cset_matches false [CDigit] x = true) l).
  { intros l Hl. eapply Forall_impl; [exact Hl|]. intros x Hx.
    unfold cset_matches, existsb, item_matches. by rewrite Hx. }
  apply Hdig in Hy, Hmo, Hd.
  assert (E : match_here false isoPattern (y ++ a :: mo ++ b :: d ++ post)
              = Some [(O, y ++ a :: mo ++ b :: d);
                      (3%nat, d); (2%nat, mo); (1%nat, y)]).
  { unfold match_here, isoPattern, cat, one. cbn [foldr run].
    rewrite (rep_exact false _ y _ _ 4%nat Ly Hy), take_prefix.
    cbn [rep more_allowed andb Nat.pred fmap option_fmap option_map Nat.eqb].
    rewrite Ha, rep_zero.
    rewrite (rep_exact false _ mo _ _ 2%nat Lmo Hmo), take_prefix.
    cbn [rep more_allowed andb Nat.pred fmap option_fmap option_map Nat.eqb].
    rewrite Hb, rep_zero.
    rewrite (rep_exact false _ d _ _ 2%nat Ld Hd), take_prefix.
    f_equal. f_equal. f_equal.
    replace (y ++ a :: mo ++ b :: d ++ post)
      with ((y ++ a :: mo ++ b :: d) ++ post)
      by (rewrite <- !app_assoc; cbn [app]; rewrite <- !app_assoc; reflexivity).
    apply take_prefix. }
  unfold parseDate.
  destruct y as [|y0 y]; [discriminate Ly|].
  cbn [app truthy_str negb exec]. cbn [app] in E. rewrite E.
  reflexivity.
Qed.

End LocalFacts.


(** ** The remote call *)

Section RemoteFacts.

Variable JSON_parse : json -> option json.
Variable transport : nat -> Request -> fetch_result.
Variable newDate : jsstring -> option DateFields.

Abbreviation call := (callGemini JSON_parse transport).
Abbreviation result_of := (outcome JSON_parse).

Lemma fetches_app t1 t2 : fetches (t1 ++ t2) = (fetches t1 + fetches t2)%nat.
Proof. unfold fetches. by rewrite List.filter_app, length_app. Qed.

(** One attempt issues one request and returns or throws what
    [outcome] makes of the answer. *)
Lemma attempt_once_eq url prompt t :
  attempt_once JSON_parse transport url prompt t
  = (result_of (transport (fetches t) (request url prompt)),
     t ++ [EFetch (request url prompt)]).
Proof.
  unfold attempt_once, io_bind, fetch, io_ret, io_throw.
  by destruct (result_of _).
Qed.

(** The loop returns the value of the first attempt that succeeds, and
    issues nothing after it. *)
Lemma attempts_success url prompt v :
  forall failures fuel attempt delayMs t,
    (failures < fuel)%nat ->
    (attempt + failures <= maxAttempts)%nat ->
    (forall i, (i < failures)%nat ->
       exists e, result_of (transport (fetches t + i) (request url prompt)) = inl e) ->
    result_of (transport (fetches t + failures) (request url prompt)) = inr v ->
    attempts JSON_parse transport fuel url prompt attempt delayMs t
    = (inr v, t ++ backoff (request url prompt) failures delayMs).
Proof.
  induction failures as [|n IH]; intros fuel attempt delayMs t Hfuel Hatt Hfail Hok;
    (destruct fuel as [|fuel]; [lia|]); cbn [attempts].
  - destruct (Nat.leb_spec attempt maxAttempts) as [_|?]; [|lia].
    unfold try_catch. rewrite attempt_once_eq.
    rewrite Nat.add_0_r in Hok. by rewrite Hok.
  - destruct (Nat.leb_spec attempt maxAttempts) as [_|?]; [|lia].
    unfold try_catch. rewrite attempt_once_eq.
    destruct (Hfail O ltac:(lia)) as [e He]. rewrite Nat.add_0_r in He. rewrite He.
    destruct (Nat.eqb_spec attempt maxAttempts) as [?|_]; [lia|].
    unfold io_bind, delay.
    rewrite IH.
    + cbn [backoff]. by rewrite <- !app_assoc.
    + lia.
    + lia.
    + intros i Hi. rewrite !fetches_app. cbn.
      destruct (Hfail (S i) ltac:(lia)) as [e' He']. exists e'.
      rewrite <- He'. do 2 f_equal. lia.
    + rewrite !fetches_app. cbn. rewrite <- Hok. do 2 f_equal. lia.
Qed.

(** When every attempt up to the last fails, the loop throws the error
    of the last one. *)
Lemma attempts_exhausted url prompt e :
  forall failures fuel attempt delayMs t,
    (failures < fuel)%nat ->
    (attempt + failures = maxAttempts)%nat ->
    (forall i, (i < failures)%nat ->
       exists e', result_of (transport (fetches t + i) (request url prompt)) = inl e') ->
    result_of (transport (fetches t + failures) (request url prompt)) = inl e ->
    attempts JSON_parse transport fuel url prompt attempt delayMs t
    = (inl e, t ++ backoff (request url prompt) failures delayMs).
Proof.
  induction failures as [|n IH]; intros fuel attempt delayMs t Hfuel Hatt Hfail Hlast;
    (destruct fuel as [|fuel]; [lia|]); cbn [attempts].
  - destruct (Nat.leb_spec attempt maxAttempts) as [_|?]; [|lia].
    unfold try_catch. rewrite attempt_once_eq.
    rewrite Nat.add_0_r in Hlast. rewrite Hlast.
    destruct (Nat.eqb_spec attempt maxAttempts) as [_|?]; [|lia].
    reflexivity.
  - destruct (Nat.leb_spec attempt maxAttempts) as [_|?]; [|lia].
    unfold try_catch. rewrite attempt_once_eq.
    destruct (Hfail O ltac:(lia)) as [e' He]. rewrite Nat.add_0_r in He. rewrite He.
    destruct (Nat.eqb_spec attempt maxAttempts) as [?|_]; [lia|].
    unfold io_bind, delay.
    rewrite IH.
    + cbn [backoff]. by rewrite <- !app_assoc.
    + lia.
    + lia.
    + intros i Hi. rewrite !fetches_app. cbn.
      destruct (Hfail (S i) ltac:(lia)) as [e'' He']. exists e''.
      rewrite <- He'. do 2 f_equal. lia.
    + rewrite !fetches_app. cbn. rewrite <- Hlast. do 2 f_equal. lia.
Qed.

Lemma callGemini_with_key prompt key t :
  key <> [] ->
  call prompt (Some key) t
  = attempts JSON_parse transport (S maxAttempts) (endpoint ++ key) prompt 1 500 t.
Proof. intros Hk. unfold callGemini. by destruct key. Qed.

(** A call with a credential ends in one of two ways: an attempt among
    the first three succeeds and its value is returned, or the three
    fail and the error of the third is thrown.  The loop never runs out
    of fuel, and the [return null] after it is not reached. *)
Lemma callGemini_cases prompt key :
  key <> [] ->
  (exists failures v,
     (failures < maxAttempts)%nat
     /\ result_of (transport failures (request (endpoint ++ key) prompt)) = inr v
     /\ call prompt (Some key) []
        = (inr v, backoff (request (endpoint ++ key) prompt) failures 500))
  \/ (exists e,
        result_of (transport 2 (request (endpoint ++ key) prompt)) = inl e
        /\ call prompt (Some key) []
           = (inl e, backoff (request (endpoint ++ key) prompt) 2 500)).
Proof.
  intros Hk. rewrite callGemini_with_key by done.
  destruct (result_of (transport 0 (request (endpoint ++ key) prompt)))
    as [e0|v0] eqn:E0.
  2: { left. exists 0%nat, v0. split; [unfold maxAttempts; lia|]. split; [done|].
       apply (attempts_success _ _ v0 0%nat _ _ _ []);
         [unfold maxAttempts; lia | unfold maxAttempts; lia | intros; lia | done]. }
  destruct (result_of (transport 1 (request (endpoint ++ key) prompt)))
    as [e1|v1] eqn:E1.
  2: { left. exists 1%nat, v1. split; [unfold maxAttempts; lia|]. split; [done|].
       apply (attempts_success _ _ v1 1%nat _ _ _ []);
         [unfold maxAttempts; lia | unfold maxAttempts; lia | | done].
       intros [|i] Hi; [by exists e0 | lia]. }
  destruct (result_of (transport 2 (request (endpoint ++ key) prompt)))
    as [e2|v2] eqn:E2.
  2: { left. exists 2%nat, v2. split; [unfold maxAttempts; lia|]. split; [done|].
       apply (attempts_success _ _ v2 2%nat _ _ _ []);
         [unfold maxAttempts; lia | unfold maxAttempts; lia | | done].
       intros [|[|i]] Hi; [by exists e0 | by exists e1 | lia]. }
  right. exists e2. split; [done|].
  apply (attempts_exhausted _ _ e2 2%nat _ _ _ []); [unfold maxAttempts; lia | reflexivity | | done].
  intros [|[|i]] Hi; [by exists e0 | by exists e1 | lia].
Qed.

(** C2. With a credential and a remote service whose three attempts
    all fail, [callGemini] issues exactly three requests, suspends for
    500 ms after the first and 1000 ms after the second, and throws the
    error of the third attempt. *)
Theorem callGemini_retries_then_throws prompt key e1 e2 e3 :
  key <> [] ->
  result_of (transport 0 (request (endpoint ++ key) prompt)) = inl e1 ->
  result_of (transport 1 (request (endpoint ++ key) prompt)) = inl e2 ->
  result_of (transport 2 (request (endpoint ++ key) prompt)) = inl e3 ->
  call prompt (Some key) []
  = (inl e3,
     [EFetch (request (endpoint ++ key) prompt); EDelay 500;
      EFetch (request (endpoint ++ key) prompt); EDelay 1000;
      EFetch (request (endpoint ++ key) prompt)])
  /\ fetches (snd (call prompt (Some key) [])) = 3%nat.
Proof.
  intros Hk H1 H2 H3.
  rewrite callGemini_with_key by done.
  rewrite (attempts_exhausted _ _ e3 2).
  - by split.
  - unfold maxAttempts. lia.
  - reflexivity.
  - intros [|[|i]] Hi; [by exists e1 | by exists e2 | lia].
  - exact H3.
Qed.

(** C6. Without a credential ([undefined] or the empty string)
    [callGemini] returns [null] as a normal result and issues no
    request: the trace of the run is unchanged. *)
Theorem callGemini_without_credential prompt t :
  callGemini JSON_parse transport prompt None t = (inr JNull, t)
  /\ callGemini JSON_parse transport prompt (Some []) t = (inr JNull, t).
Proof. by split. Qed.


(** ** The orchestrator *)

Abbreviation process := (handleProcess JSON_parse transport newDate).
Abbreviation run_extract := (extract JSON_parse transport newDate).

(** The run of [handleProcess] when [callGemini] returns a falsy value. *)
Lemma process_falsy apiKey now st t v t' :
  call (buildPrompt (rawText st)) (Some apiKey) t = (inr v, t') ->
  to_boolean v = false ->
  process apiKey now st t
  = (inr {| rawText := rawText st;
            artifact := Some (local_artifact newDate (rawText st) now);
            status :=
              {| tone := warning;
                 message := str "Gemini API key not provided; used offline extractor." |};
            processing := false |}, t').
Proof.
  intros Hcall Hv.
  unfold handleProcess, extract, try_catch, io_bind.
  cbn [rawText setStatus setProcessing].
  rewrite Hcall, Hv. reflexivity.
Qed.

Lemma obj_of_result_source r :
  obj_of_result r !! str "source" = Some (JStr (source r)).
Proof. destruct r. by vm_compute. Qed.

Lemma local_source text now :
  local_artifact newDate text now !! str "source" = Some (JStr (str "local-extractor")).
Proof.
  unfold local_artifact.
  rewrite !lookup_insert_ne by (by vm_compute).
  rewrite obj_of_result_source. by rewrite extractor_unfold.
Qed.


Lemma apiKey_of_falsy env : truthy env = false -> apiKey_of env = [].
Proof. apply or_default_falsy. Qed.

(** The run of [handleProcess] without a credential. *)
Lemma process_no_key env now st t :
  truthy env = false ->
  process (apiKey_of env) now st t
  = (inr {| rawText := rawText st;
            artifact := Some (local_artifact newDate (rawText st) now);
            status := {| tone := warning;
                         message := str "Gemini API key not provided; used offline extractor." |};
            processing := false |}, t).
Proof.
  intros Henv. rewrite (apiKey_of_falsy env Henv).
  by apply (process_falsy [] now st t JNull t).
Qed.

(** C3. Without a credential [handleProcess] issues no request (it
    adds no event to the trace), stores an artifact whose [source] is
    [local-extractor], and reports the warning that the API key was not
    provided. *)
Theorem process_without_credential env now st t :
  truthy env = false ->
  exists a,
    process (apiKey_of env) now st t
    = (inr {| rawText := rawText st; artifact := Some a;
              status := {| tone := warning;
                           message := str "Gemini API key not provided; used offline extractor." |};
              processing := false |}, t)
    /\ a !! str "source" = Some (JStr (str "local-extractor"))
    /\ a = local_artifact newDate (rawText st) now.
Proof.
  intros Henv.
  exists (local_artifact newDate (rawText st) now). split; [|split].
  - by apply process_no_key.
  - apply local_source.
  - reflexivity.
Qed.

(** C8. Two runs of [handleProcess] on the same text without a
    credential, at different times and from whatever states, store
    artifacts that agree on every field but [processedAt]. *)
Theorem process_twice_same_artifact env now1 now2 st1 st2 t1 t2 :
  truthy env = false ->
  rawText st1 = rawText st2 ->
  exists st1' st2' a1 a2,
    process (apiKey_of env) now1 st1 t1 = (inr st1', t1)
    /\ process (apiKey_of env) now2 st2 t2 = (inr st2', t2)
    /\ artifact st1' = Some a1 /\ artifact st2' = Some a2
    /\ delete (str "processedAt") a1 = delete (str "processedAt") a2
    /\ (forall k, k <> str "processedAt" -> a1 !! k = a2 !! k).
Proof.
  intros Henv Htext.
  exists {| rawText := rawText st1;
            artifact := Some (local_artifact newDate (rawText st1) now1);
            status := {| tone := warning;
                         message := str "Gemini API key not provided; used offline extractor." |};
            processing := false |},
         {| rawText := rawText st2;
            artifact := Some (local_artifact newDate (rawText st2) now2);
            status := {| tone := warning;
                         message := str "Gemini API key not provided; used offline extractor." |};
            processing := false |},
         (local_artifact newDate (rawText st1) now1),
         (local_artifact newDate (rawText st2) now2).
  split; [by apply process_no_key|]. split; [by apply process_no_key|].
  split; [done|]. split; [done|].
  set (a1 := local_artifact newDate (rawText st1) now1).
  set (a2 := local_artifact newDate (rawText st2) now2).
  assert (D : delete (str "processedAt") a1 = delete (str "processedAt") a2).
  { subst a1 a2. unfold local_artifact. rewrite Htext. by rewrite !delete_insert_eq. }
  split; [exact D|].
  intros k Hk.
  rewrite <- (lookup_delete_ne a1 (str "processedAt") k) by done.
  rewrite <- (lookup_delete_ne a2 (str "processedAt") k) by done.
  by rewrite D.
Qed.

(** What an attempt makes of a response with a success status and a
    non-empty text that [JSON.parse] accepts: the parsed value, whether
    it is truthy or not. *)
Lemma outcome_parsed status payload text v :
  ok status = true ->
  response_text payload = Some text ->
  to_boolean text = true ->
  JSON_parse text = Some v ->
  result_of (Response status (Some payload)) = inr v.
Proof. intros Hok Ht Hb Hp. unfold outcome. by rewrite Hok, Ht, Hb, Hp. Qed.

(** C9. When a request of [callGemini] (after [failures] failed
    attempts, fewer than three) is answered with a success status and
    a text that [JSON.parse] reads as a falsy value, [callGemini]
    returns that value, neither throwing nor issuing a further
    request; [handleProcess] then uses the local extractor and reports
    that the API key was not provided, although one was. *)
Theorem falsy_remote_result_reported_as_missing_key
    key now st status payload text v failures :
  key <> [] ->
  (failures < maxAttempts)%nat ->
  (forall i, (i < failures)%nat ->
     exists e, result_of (transport i (request (endpoint ++ key)
                                        (buildPrompt (rawText st)))) = inl e) ->
  transport failures (request (endpoint ++ key) (buildPrompt (rawText st)))
  = Response status (Some payload) ->
  ok status = true ->
  response_text payload = Some text ->
  to_boolean text = true ->
  JSON_parse text = Some v ->
  to_boolean v = false ->
  call (buildPrompt (rawText st)) (Some key) []
  = (inr v, backoff (request (endpoint ++ key) (buildPrompt (rawText st))) failures 500)
  /\ process key now st []
     = (inr {| rawText := rawText st;
               artifact := Some (local_artifact newDate (rawText st) now);
               status := {| tone := warning;
                            message := str "Gemini API key not provided; used offline extractor." |};
               processing := false |},
        backoff (request (endpoint ++ key) (buildPrompt (rawText st))) failures 500)
  /\ fetches (backoff (request (endpoint ++ key) (buildPrompt (rawText st))) failures 500)
     = S failures.
Proof.
  intros Hk Hlt Hfail Hresp Hstatus Htext Htruthy Hparse Hv.
  assert (Hok : result_of (transport failures (request (endpoint ++ key)
                                                 (buildPrompt (rawText st)))) = inr v).
  { rewrite Hresp. by apply (outcome_parsed status payload text). }
  assert (Hcall : call (buildPrompt (rawText st)) (Some key) []
            = (inr v, backoff (request (endpoint ++ key) (buildPrompt (rawText st)))
                        failures 500)).
  { rewrite callGemini_with_key by done.
    by rewrite (attempts_success _ _ v failures); [| lia | lia | |]. }
  split; [exact Hcall|]. split.
  - by apply (process_falsy key now st [] v).
  - clear. generalize 500%Z.
    induction failures as [|n IH]; intros z; [reflexivity|].
    cbn [backoff]. change (fetches (?a :: ?b :: ?l)) with (S (fetches l)).
    by rewrite IH.
Qed.

(** The fields of the object the local extractor returns. *)
Lemma obj_of_result_dom r : carries_schema (obj_of_result r).
Proof.
  unfold carries_schema, obj_of_result.
  rewrite !dom_insert_L, dom_singleton_L.
  unfold schema_fields. simpl. set_solver.
Qed.

(** C1, as the program has it.  Every run of the extraction step
    returns a result that carries [source].  A result of the local
    extractor carries exactly the three schema fields and [source].  A
    result of the remote path carries the properties of the parsed
    payload, whatever they are, with [source] set to the model. *)
Theorem extraction_result_fields rawText apiKey t :
  exists x t',
    run_extract rawText apiKey t = (inr x, t')
    /\ is_Some (structured x !! str "source")
    /\ (usedGemini x = false ->
        structured x = obj_of_result (localExtractor newDate rawText)
        /\ carries_schema (structured x))
    /\ (usedGemini x = true ->
        exists v,
          fst (call (buildPrompt rawText) (Some apiKey) t) = inr v
          /\ to_boolean v = true
          /\ structured x = <[str "source" := JStr model_id]> (spread v)
          /\ dom (structured x) = dom (spread v) ∪ {[ str "source" ]}).
Proof.
  unfold extract, try_catch, io_bind.
  destruct (call (buildPrompt rawText) (Some apiKey) t) as [[e|v] t'] eqn:E.
  - eexists _, _. split; [reflexivity|]. cbn [structured usedGemini].
    split; [|split; [|discriminate]].
    + rewrite obj_of_result_source. by eexists.
    + intros _. split; [reflexivity | apply obj_of_result_dom].
  - destruct (to_boolean v) eqn:Hv.
    + eexists _, _. split; [reflexivity|]. cbn [structured usedGemini fst].
      split; [|split; [discriminate|]].
      * rewrite lookup_insert_eq. by eexists.
      * intros _. exists v. repeat split; auto.
        rewrite dom_insert_L. apply (comm_L (∪)).
    + eexists _, _. split; [reflexivity|]. cbn [structured usedGemini].
      split; [|split; [|discriminate]].
      * rewrite obj_of_result_source. by eexists.
      * intros _. split; [reflexivity | apply obj_of_result_dom].
Qed.

End RemoteFacts.

(** ** The properties at concrete inputs *)

Section Examples.

Import Example.

(** The examples of the specification. *)

Example parseDate_out_of_range :
  parseDate newDate (str "2024-13-40") = Some (str "2024-13-40").
Proof. reflexivity. Qed.

Example parseDate_friendly :
  parseDate newDate (str "17 May 2021") = Some (str "2021-05-17").
Proof. reflexivity. Qed.

Example parseDate_not_a_date : parseDate newDate (str "not a date") = None.
Proof. reflexivity. Qed.

Example localExtractor_sample :
  localExtractor newDate DEFAULT_TEXT
  = {| applicantName := str "Jane Doe"; documentId := str "X1234567";
       issueDate := str "2021-05-17"; source := str "local-extractor" |}.
Proof. reflexivity. Qed.





Example blank_captures_are_empty :
  capture LName blank_captures = Some []
  /\ capture LIssueDate blank_captures = Some []
  /\ capture LPassportNo blank_captures = None.
Proof. by vm_compute. Qed.

(** The JSON texts [null], [false], [0], [-0] and the empty string
    literal parse to falsy values. *)
Example falsy_documents :
  Forall (fun text => to_boolean <$> parse_text text = Some false)
    [str "null"; str "false"; str "0"; str "-0"; [34; 34]].
Proof. repeat constructor. Qed.

End Examples.

Lemma callGemini_retries_then_throws_witness :
  str "k" <> []
  /\ callGemini Example.JSON_parse Example.unreachable (str "p") (Some (str "k")) []
     = (inl FetchRejected,
        [EFetch (request (endpoint ++ str "k") (str "p")); EDelay 500;
         EFetch (request (endpoint ++ str "k") (str "p")); EDelay 1000;
         EFetch (request (endpoint ++ str "k") (str "p"))]).
Proof.
  split; [discriminate|].
  apply (callGemini_retries_then_throws Example.JSON_parse Example.unreachable
           (str "p") (str "k") FetchRejected FetchRejected FetchRejected);
    [discriminate | reflexivity | reflexivity | reflexivity].
Defined.

Lemma process_without_credential_witness :
  truthy None = false
  /\ exists a,
       handleProcess Example.JSON_parse Example.unreachable Example.newDate
         (apiKey_of None) (str "2026-01-01T00:00:00.000Z")
         (Example.initial DEFAULT_TEXT) []
       = (inr {| rawText := DEFAULT_TEXT; artifact := Some a;
                 status := {| tone := warning;
                              message := str "Gemini API key not provided; used offline extractor." |};
                 processing := false |}, [])
       /\ a !! str "source" = Some (JStr (str "local-extractor")).
Proof.
  split; [reflexivity|].
  destruct (process_without_credential Example.JSON_parse Example.unreachable
              Example.newDate None (str "2026-01-01T00:00:00.000Z")
              (Example.initial DEFAULT_TEXT) [] eq_refl) as (a & R & S & _).
  exists a. split; [exact R | exact S].
Defined.

Lemma localExtractor_total_unknown_witness :
  truthy (capture LName []) = false
  /\ applicantName (localExtractor Example.newDate []) = UNKNOWN
  /\ documentId (localExtractor Example.newDate []) = UNKNOWN
  /\ issueDate (localExtractor Example.newDate []) = UNKNOWN.
Proof.
  destruct (localExtractor_total_unknown Example.newDate []) as (H1 & H2 & H3 & _).
  split; [reflexivity|].
  split; [apply H1; reflexivity|].
  split; [apply H2; reflexivity | apply H3; reflexivity].
Defined.

Lemma parseDate_numeric_witness :
  exists m,
    exec false isoPattern (str "2024-13-40") = Some m
    /\ group 1 m = Some (str "2024") /\ group 2 m = Some (str "13")
    /\ group 3 m = Some (str "40")
    /\ exists pre y a mo b d post,
         str "2024-13-40" = pre ++ (y ++ a :: mo ++ b :: d) ++ post
         /\ parseDate Example.newDate (str "2024-13-40")
            = Some (y ++ str "-" ++ mo ++ str "-" ++ d).
Proof.
  eexists. split; [reflexivity|]. do 3 (split; [reflexivity|]).
  destruct (parseDate_numeric Example.newDate (str "2024-13-40") _ eq_refl)
    as (pre & y & a & mo & b & d & post & E & _ & _ & _ & _ & _ & _ & R).
  exists pre, y, a, mo, b, d, post. split; [exact E | exact R].
Defined.

Lemma first_alternative_wins_witness :
  is_Some (exec true (label_pattern LPassportNo) DEFAULT_TEXT)
  /\ (LDocumentID ∉ consulted Example.newDate DEFAULT_TEXT)
  /\ Some (documentId (localExtractor Example.newDate DEFAULT_TEXT))
     = capture LPassportNo DEFAULT_TEXT
  /\ (LIssuedOn ∉ consulted Example.newDate DEFAULT_TEXT)
  /\ issueDate (localExtractor Example.newDate DEFAULT_TEXT) = str "2021-05-17"
  /\ exec true (label_pattern LPassportNo) Example.second_alternatives = None
  /\ (LDocumentID ∈ consulted Example.newDate Example.second_alternatives)
  /\ documentId (localExtractor Example.newDate Example.second_alternatives)
     = str "ab12"
  /\ (LIssuedOn ∈ consulted Example.newDate Example.second_alternatives)
  /\ issueDate (localExtractor Example.newDate Example.second_alternatives)
     = str "2020-01-02".
Proof.
  assert (Hm : is_Some (exec true (label_pattern LPassportNo) DEFAULT_TEXT))
    by (vm_compute; eauto).
  destruct (first_alternative_wins Example.newDate DEFAULT_TEXT)
    as (_ & Hp & _ & Hd & _).
  destruct (Hp Hm) as [Hp1 Hp2].
  destruct (Hd (str "2021-05-17") eq_refl) as [Hd1 Hd2].
  destruct (first_alternative_wins Example.newDate Example.second_alternatives)
    as (_ & _ & _ & _ & _ & Hq & He & _).
  destruct (Hq eq_refl) as (Hq1 & Hq2 & _).
  destruct (He eq_refl) as (He1 & _ & He3).
  do 5 (split; [assumption|]). split; [reflexivity|].
  split; [exact Hq1|]. split; [by rewrite Hq2|]. split; [exact He1|].
  apply He3. reflexivity.
Defined.

Lemma process_twice_same_artifact_witness :
  exists st1' st2' a1 a2,
    handleProcess Example.JSON_parse Example.unreachable Example.newDate
      (apiKey_of None) (str "2026-01-01T00:00:00.000Z") (Example.initial DEFAULT_TEXT) []
    = (inr st1', [])
    /\ handleProcess Example.JSON_parse Example.unreachable Example.newDate
         (apiKey_of None) (str "2026-01-02T00:00:00.000Z") st1' []
       = (inr st2', [])
    /\ artifact st1' = Some a1 /\ artifact st2' = Some a2
    /\ delete (str "processedAt") a1 = delete (str "processedAt") a2.
Proof.
  pose (st1 := {| rawText := DEFAULT_TEXT;
                  artifact := Some (local_artifact Example.newDate DEFAULT_TEXT
                                      (str "2026-01-01T00:00:00.000Z"));
                  status := {| tone := warning;
                               message := str "Gemini API key not provided; used offline extractor." |};
                  processing := false |}).
  destruct (process_twice_same_artifact Example.JSON_parse Example.unreachable
              Example.newDate None (str "2026-01-01T00:00:00.000Z")
              (str "2026-01-02T00:00:00.000Z") (Example.initial DEFAULT_TEXT) st1
              [] [] eq_refl eq_refl)
    as (st1' & st2' & a1 & a2 & R1 & R2 & A1 & A2 & D & _).
  exists st1', st2', a1, a2.
  assert (E : st1' = st1).
  { pose proof R1 as R1'.
    rewrite (process_no_key Example.JSON_parse Example.unreachable Example.newDate
               None (str "2026-01-01T00:00:00.000Z") (Example.initial DEFAULT_TEXT)
               [] eq_refl) in R1'.
    by injection R1' as <-. }
  subst st1'. auto 6.
Defined.

(** A service answers every request with the text [text]; the call
    returns [v] after one request and the run reports the missing
    key. *)
Definition reported_as_missing_key (text : jsstring) (v : json) : Prop :=
  callGemini Example.JSON_parse (Example.answers text)
    (buildPrompt DEFAULT_TEXT) (Some (str "k")) []
  = (inr v, [EFetch (request (endpoint ++ str "k") (buildPrompt DEFAULT_TEXT))])
  /\ handleProcess Example.JSON_parse (Example.answers text) Example.newDate
       (str "k") (str "2026-01-01T00:00:00.000Z") (Example.initial DEFAULT_TEXT) []
     = (inr {| rawText := DEFAULT_TEXT;
               artifact := Some (local_artifact Example.newDate DEFAULT_TEXT
                                   (str "2026-01-01T00:00:00.000Z"));
               status := {| tone := warning;
                            message := str "Gemini API key not provided; used offline extractor." |};
               processing := false |},
        [EFetch (request (endpoint ++ str "k") (buildPrompt DEFAULT_TEXT))]).

Lemma falsy_remote_result_witness :
  to_boolean JNull = false
  /\ callGemini Example.JSON_parse (Example.answers (str "null"))
       (buildPrompt DEFAULT_TEXT) (Some (str "k")) []
     = (inr JNull, [EFetch (request (endpoint ++ str "k") (buildPrompt DEFAULT_TEXT))])
  /\ handleProcess Example.JSON_parse (Example.answers (str "null")) Example.newDate
       (str "k") (str "2026-01-01T00:00:00.000Z") (Example.initial DEFAULT_TEXT) []
     = (inr {| rawText := DEFAULT_TEXT;
               artifact := Some (local_artifact Example.newDate DEFAULT_TEXT
                                   (str "2026-01-01T00:00:00.000Z"));
               status := {| tone := warning;
                            message := str "Gemini API key not provided; used offline extractor." |};
               processing := false |},
        [EFetch (request (endpoint ++ str "k") (buildPrompt DEFAULT_TEXT))])
  /\ reported_as_missing_key (str "false") (JBool false)
  /\ reported_as_missing_key (str "0") (JNum 0)
  /\ reported_as_missing_key [34; 34] (JStr []).
Proof.
  assert (H : forall text v,
            response_text
              (JObj {[ str "candidates" :=
                         JArr [JObj {[ str "content" :=
                                         JObj {[ str "parts" :=
                                                   JArr [JObj {[ str "text" := JStr text ]}] ]} ]}] ]})
            = Some (JStr text) ->
            to_boolean (JStr text) = true ->
            Example.JSON_parse (JStr text) = Some v ->
            to_boolean v = false ->
            reported_as_missing_key text v).
  { intros text v Ht Hb Hp Hv.
    destruct (falsy_remote_result_reported_as_missing_key
                Example.JSON_parse (Example.answers text) Example.newDate
                (str "k") (str "2026-01-01T00:00:00.000Z") (Example.initial DEFAULT_TEXT)
                200%Z
                (JObj {[ str "candidates" :=
                           JArr [JObj {[ str "content" :=
                                           JObj {[ str "parts" :=
                                                     JArr [JObj {[ str "text" := JStr text ]}] ]} ]}] ]})
                (JStr text) v 0) as (C & P & _);
      [discriminate | unfold maxAttempts; lia | intros i Hi; lia | reflexivity
      | reflexivity | exact Ht | exact Hb | exact Hp | exact Hv |].
    split; [exact C | exact P]. }
  split; [reflexivity|].
  destruct (H (str "null") JNull) as [C P]; [by vm_compute | done | by vm_compute | done |].
  split; [exact C|]. split; [exact P|].
  split; [apply H; [by vm_compute | done | by vm_compute | done]|].
  split; [apply H; [by vm_compute | done | by vm_compute | done]|].
  apply H; [by vm_compute | done | by vm_compute | done].
Defined.

Lemma empty_capture_is_no_match_witness :
  capture LName Example.blank_captures = Some []
  /\ capture LIssueDate Example.blank_captures = Some []
  /\ applicantName (localExtractor Example.newDate Example.blank_captures) = UNKNOWN
  /\ (LDocumentID ∈ consulted Example.newDate Example.blank_captures)
  /\ (LIssuedOn ∈ consulted Example.newDate Example.blank_captures)
  /\ issueDate (localExtractor Example.newDate Example.blank_captures) = UNKNOWN.
Proof.
  destruct (empty_capture_is_no_match Example.newDate Example.blank_captures)
    as (Hn & Hp & Hd).
  destruct (Hp eq_refl) as [Hp1 _].
  destruct (Hd eq_refl) as (Hd1 & _ & Hd3).
  split; [reflexivity|]. split; [reflexivity|].
  split; [apply Hn; reflexivity|].
  split; [exact Hp1|]. split; [exact Hd1|].
  apply Hd3. reflexivity.
Defined.

(** C1, as the specification states it, fails on the remote path: the
    service answers with the JSON text of the empty object, and the
    extraction result carries [source] alone. *)
Lemma remote_result_without_schema_fields :
  exists x t,
    extract Example.JSON_parse (Example.answers (str "{}")) Example.newDate
      DEFAULT_TEXT (str "k") []
    = (inr x, t)
    /\ usedGemini x = true
    /\ dom (structured x) = {[ str "source" ]}
    /\ ~ carries_schema (structured x).
Proof.
  exists {| structured := <[str "source" := JStr model_id]> ∅;
            usedGemini := true; fallbackReason := [] |},
         [EFetch (request (endpoint ++ str "k") (buildPrompt DEFAULT_TEXT))].
  split; [by vm_compute|]. cbn [usedGemini structured].
  split; [reflexivity|].
  assert (D : dom (<[str "source" := JStr model_id]> (∅ : jsobj)) = {[ str "source" ]}).
  { by rewrite dom_insert_L, dom_empty_L, union_empty_r_L. }
  split; [exact D|].
  unfold carries_schema. rewrite D. intros H.
  assert (Hin : str "applicantName" ∈ schema_fields ∪ ({[ str "source" ]} : gset jsstring)).
  { apply elem_of_union_l. unfold schema_fields. cbn. set_solver. }
  rewrite <- H in Hin. apply elem_of_singleton in Hin. discriminate Hin.
Qed.

Lemma extraction_result_fields_witness :
  exists x t,
    extract Example.JSON_parse Example.overloaded Example.newDate
      DEFAULT_TEXT (str "k") []
    = (inr x, t)
    /\ usedGemini x = false
    /\ carries_schema (structured x).
Proof.
  destruct (extraction_result_fields Example.JSON_parse Example.overloaded
              Example.newDate DEFAULT_TEXT (str "k") [])
    as (x & t & E & _ & Hl & _).
  exists x, t.
  assert (U : match fst (extract Example.JSON_parse Example.overloaded
                           Example.newDate DEFAULT_TEXT (str "k") []) with
              | inr y => usedGemini y
              | inl _ => true
              end = false) by (by vm_compute).
  rewrite E in U. cbn [fst] in U.
  split; [exact E|]. split; [exact U|]. by apply Hl.
Defined.

(** * Further properties *)

(** ** The remote call, for every service *)

Section CallFacts.

Variable JSON_parse : json -> option json.
Variable transport : nat -> Request -> fetch_result.

Lemma requests_backoff req n :
  forall ms, requests (backoff req n ms) = replicate (S n) req.
Proof. induction n as [|n IH]; intros ms; [reflexivity|]. cbn. by rewrite IH. Qed.

Lemma delays_backoff req n :
  forall ms, delays (backoff req n ms) = (fun i => (ms * 2 ^ Z.of_nat i)%Z) <$> seq 0 n.
Proof.
  induction n as [|n IH]; intros ms; [reflexivity|].
  cbn [backoff]. change (delays (?a :: EDelay ?d :: ?l)) with (d :: delays l).
  rewrite IH. cbn [seq fmap list_fmap]. f_equal.
  - cbn. lia.
  - rewrite <- seq_shift, <- list_fmap_compose. apply list_fmap_ext.
    intros _ i _. cbn [compose]. rewrite Nat2Z.inj_succ, Z.pow_succ_r by lia. lia.
Qed.

(** X1. The attempt that first succeeds decides a call: after
    [failures] failed attempts (fewer than three) [callGemini] returns
    the value of the next one, having issued [failures + 1] identical
    requests and suspended for 500, 1000, ... ms between them; a first
    attempt that succeeds costs no suspension. *)
Theorem callGemini_first_success prompt key v failures :
  key <> [] ->
  (failures < maxAttempts)%nat ->
  (forall i, (i < failures)%nat ->
     exists e, outcome JSON_parse (transport i (request (endpoint ++ key) prompt)) = inl e) ->
  outcome JSON_parse (transport failures (request (endpoint ++ key) prompt)) = inr v ->
  exists t,
    callGemini JSON_parse transport prompt (Some key) [] = (inr v, t)
    /\ requests t = replicate (S failures) (request (endpoint ++ key) prompt)
    /\ delays t = (fun i => (500 * 2 ^ Z.of_nat i)%Z) <$> seq 0 failures
    /\ (failures = 0%nat -> t = [EFetch (request (endpoint ++ key) prompt)]).
Proof.
  intros Hk Hlt Hfail Hok.
  exists (backoff (request (endpoint ++ key) prompt) failures 500).
  split; [|split; [apply requests_backoff | split; [apply delays_backoff|]]].
  - rewrite callGemini_with_key by done.
    apply (attempts_success _ _ _ _ v failures _ _ _ []); [lia | lia | | ]; done.
  - by intros ->.
Qed.

(** X2. Whatever the service does and whatever the credential is, a
    call issues at most three requests, all of them the same request,
    suspends at most twice, for 500 ms and then 1000 ms, and logs
    nothing; it issues no request exactly when the credential is
    missing or empty. *)
Theorem callGemini_bounded prompt apiKey :
  let t := snd (callGemini JSON_parse transport prompt apiKey []) in
  (fetches t <= 3)%nat
  /\ Forall (fun r => r = request (endpoint ++ default [] apiKey) prompt) (requests t)
  /\ delays t `prefix_of` [500; 1000]%Z
  /\ (EConsoleError ∉ t)
  /\ (fetches t = 0%nat <-> truthy apiKey = false).
Proof.
  assert (Hb : forall req n, (n <= 2)%nat ->
            let t := backoff req n 500 in
            (fetches t <= 3)%nat /\ Forall (fun r => r = req) (requests t)
            /\ delays t `prefix_of` [500; 1000]%Z /\ (EConsoleError ∉ t)
            /\ fetches t <> 0%nat).
  { intros req n Hn.
    assert (Hne : forall l : list event,
              Forall (fun e => e <> EConsoleError) l -> EConsoleError ∉ l).
    { intros l Hl Hin. rewrite Forall_forall in Hl. by apply (Hl _ Hin). }
    destruct n as [|[|[|n]]]; [| | |lia]; cbn;
      (split; [lia|]); (split; [repeat constructor|]); (split; [|split; [|lia]]);
      try (apply Hne; repeat constructor; discriminate).
    - by exists [500; 1000]%Z.
    - by exists [1000]%Z.
    - by exists []. }
  destruct (truthy apiKey) eqn:Hk.
  - destruct apiKey as [[|c key]|]; try discriminate Hk. cbn [default].
    destruct (callGemini_cases JSON_parse transport prompt (c :: key) ltac:(done))
      as [(n & v & Hn & _ & ->)|(e & _ & ->)]; cbn [snd].
    + destruct (Hb (request (endpoint ++ c :: key) prompt) n) as (H1 & H2 & H3 & H4 & H5).
      { unfold maxAttempts in Hn. lia. }
      repeat split; auto; intros; [done | discriminate].
    + destruct (Hb (request (endpoint ++ c :: key) prompt) 2%nat) as (H1 & H2 & H3 & H4 & H5);
        [lia|].
      repeat split; auto; intros; [done | discriminate].
  - assert (E : callGemini JSON_parse transport prompt apiKey [] = (inr JNull, [])).
    { unfold callGemini. by rewrite Hk. }
    rewrite E. cbn [snd].
    split; [cbn; lia|]. split; [constructor|].
    split; [by exists [500; 1000]%Z|]. split; [apply not_elem_of_nil|].
    by split.
Qed.

(** X3. Of a response only [candidates[0].content.parts[0].text]
    counts: further candidates, further parts and any other property
    of the payload change nothing; and a payload without candidates, or
    with an empty list of them, is an empty response, which the loop
    retries like any failure. *)
Theorem response_text_first_part m0 mc mk mp cs ps text :
  response_text
    (JObj (<[str "candidates" :=
               JArr (JObj (<[str "content" :=
                               JObj (<[str "parts" :=
                                         JArr (JObj (<[str "text" := text]> mp) :: ps)]> mk)]> mc)
                     :: cs)]> m0))
  = Some text
  /\ (forall status m,
        ok status = true ->
        m !! str "candidates" = None \/ m !! str "candidates" = Some (JArr []) ->
        outcome JSON_parse (Response status (Some (JObj m))) = inl EmptyResponse).
Proof.
  split.
  - unfold response_text, field, item0. cbn [mbind option_bind].
    rewrite lookup_insert_eq. cbn [mbind option_bind lookup list_lookup].
    rewrite lookup_insert_eq. cbn [mbind option_bind].
    rewrite lookup_insert_eq. cbn [mbind option_bind lookup list_lookup].
    by rewrite lookup_insert_eq.
  - intros status m Hok Hm. unfold outcome. rewrite Hok. cbn [negb].
    unfold response_text, field.
    by destruct Hm as [-> | ->].
Qed.

End CallFacts.

(** ** The orchestrator, on its three paths *)

Section ProcessFacts.

Variable JSON_parse : json -> option json.
Variable transport : nat -> Request -> fetch_result.
Variable newDate : jsstring -> option DateFields.

Definition gemini_done : Status :=
  {| tone := success; message := str "Extraction completed using the Gemini API." |}.

Definition key_not_provided : Status :=
  {| tone := warning;
     message := str "Gemini API key not provided; used offline extractor." |}.

Definition gemini_unavailable : Status :=
  {| tone := warning;
     message :=
       str "Gemini API unavailable; used local extractor with the latest document text." |}.

(** The artifact of a run that used the remote value [v]. *)
Definition remote_artifact (v : json) (text now : jsstring) : jsobj :=
  <[str "processedAt" := JStr now]>
    (<[str "rawText" := JStr text]>
       (<[str "source" := JStr model_id]> (spread v))).

(** [handleProcess] by the result of [callGemini]. *)
Lemma process_by_call apiKey now st t :
  handleProcess JSON_parse transport newDate apiKey now st t
  = match callGemini JSON_parse transport (buildPrompt (rawText st)) (Some apiKey) t with
    | (inr v, t') =>
        if to_boolean v then
          (inr {| rawText := rawText st;
                  artifact := Some (remote_artifact v (rawText st) now);
                  status := gemini_done; processing := false |}, t')
        else
          (inr {| rawText := rawText st;
                  artifact := Some (local_artifact newDate (rawText st) now);
                  status := key_not_provided; processing := false |}, t')
    | (inl _, t') =>
        (inr {| rawText := rawText st;
                artifact := Some (local_artifact newDate (rawText st) now);
                status := gemini_unavailable; processing := false |},
         t' ++ [EConsoleError])
    end.
Proof.
  unfold handleProcess, extract, try_catch, io_bind.
  cbn [rawText setStatus setProcessing].
  destruct (callGemini _ _ _ _ t) as [[e|v] t']; [reflexivity|].
  by destruct (to_boolean v).
Qed.

Lemma remote_artifact_lookup v text now k :
  remote_artifact v text now !! k
  = if decide (k = str "processedAt") then Some (JStr now)
    else if decide (k = str "rawText") then Some (JStr text)
    else if decide (k = str "source") then Some (JStr model_id)
    else spread v !! k.
Proof.
  unfold remote_artifact.
  repeat (rewrite lookup_insert; case_decide; [subst; by rewrite decide_True|];
          rewrite decide_False by done).
  reflexivity.
Qed.

(** X4. When an attempt succeeds with a truthy value, [handleProcess]
    reports success and stores the properties of that value, except
    that [source], [rawText] and [processedAt] are the program's own:
    the model identifier, the text of the run and its time, whatever
    the remote value says under these names. *)
Theorem process_remote_success key now st v failures :
  key <> [] ->
  (failures < maxAttempts)%nat ->
  (forall i, (i < failures)%nat ->
     exists e, outcome JSON_parse (transport i (request (endpoint ++ key)
                                                 (buildPrompt (rawText st)))) = inl e) ->
  outcome JSON_parse (transport failures (request (endpoint ++ key)
                                           (buildPrompt (rawText st)))) = inr v ->
  to_boolean v = true ->
  exists a t,
    handleProcess JSON_parse transport newDate key now st []
    = (inr {| rawText := rawText st; artifact := Some a;
              status := {| tone := success;
                           message := str "Extraction completed using the Gemini API." |};
              processing := false |}, t)
    /\ fetches t = S failures
    /\ a !! str "source" = Some (JStr (str "gemini-2.5-flash-preview-09-2025"))
    /\ a !! str "rawText" = Some (JStr (rawText st))
    /\ a !! str "processedAt" = Some (JStr now)
    /\ (forall k, k <> str "source" -> k <> str "rawText" -> k <> str "processedAt" ->
          a !! k = spread v !! k).
Proof.
  intros Hk Hlt Hfail Hok Hv.
  exists (remote_artifact v (rawText st) now),
         (backoff (request (endpoint ++ key) (buildPrompt (rawText st))) failures 500).
  split.
  - rewrite process_by_call, callGemini_with_key by done.
    rewrite (attempts_success _ _ _ _ v failures _ _ _ []) by (done || lia).
    by rewrite Hv.
  - split.
    { clear. generalize 500%Z. induction failures as [|n IH]; intros z; [reflexivity|].
      cbn [backoff]. change (fetches (?x :: ?y :: ?l)) with (S (fetches l)).
      by rewrite IH. }
    rewrite !remote_artifact_lookup.
    split; [by vm_compute|]. split; [by vm_compute|]. split; [by vm_compute|].
    intros k H1 H2 H3. rewrite remote_artifact_lookup.
    by rewrite !decide_False.
Qed.

(** X5. When the three attempts fail, [handleProcess] does not fail:
    it logs the error once, after the third request, stores the
    artifact of the local extractor and reports that the service is
    unavailable. *)
Theorem process_remote_exhausted key now st e1 e2 e3 :
  key <> [] ->
  outcome JSON_parse (transport 0 (request (endpoint ++ key) (buildPrompt (rawText st))))
  = inl e1 ->
  outcome JSON_parse (transport 1 (request (endpoint ++ key) (buildPrompt (rawText st))))
  = inl e2 ->
  outcome JSON_parse (transport 2 (request (endpoint ++ key) (buildPrompt (rawText st))))
  = inl e3 ->
  handleProcess JSON_parse transport newDate key now st []
  = (inr {| rawText := rawText st;
            artifact := Some (local_artifact newDate (rawText st) now);
            status :=
              {| tone := warning;
                 message := str "Gemini API unavailable; used local extractor with the latest document text." |};
            processing := false |},
     backoff (request (endpoint ++ key) (buildPrompt (rawText st))) 2 500
       ++ [EConsoleError]).
Proof.
  intros Hk H1 H2 H3.
  rewrite process_by_call, callGemini_with_key by done.
  rewrite (attempts_exhausted _ _ _ _ e3 2 _ _ _ []).
  - reflexivity.
  - unfold maxAttempts. lia.
  - reflexivity.
  - intros [|[|i]] Hi; [by exists e1 | by exists e2 | lia].
  - exact H3.
Qed.


End ProcessFacts.

(** ** Persistence *)

Section PersistenceFacts.

Variable JSON_parse : json -> option json.
Variable JSON_stringify : json -> jsstring.
Variable storage_available : bool.
Variable storage_accepts : gmap jsstring jsstring -> jsstring -> jsstring -> bool.

(** The setter calls the first effect makes for a parsed value. *)
Definition restored (parsed : json) : list action :=
  (if truthy_value (field "rawText" parsed)
   then [SetRawText (default JNull (field "rawText" parsed))] else [])
  ++ (if truthy_value (field "artifact" parsed)
      then [SetArtifact (default JNull (field "artifact" parsed));
            SetStatus loaded_status]
      else []).

(** The first effect, by what the store holds. *)
Lemma loadEffect_cases store :
  loadEffect JSON_parse storage_available store
  = if storage_available then
      match store !! STORAGE_KEY with
      | None | Some [] => []
      | Some cached =>
          match JSON_parse (JStr cached) with
          | None | Some JNull => [ConsoleError]
          | Some parsed => restored parsed
          end
      end
    else [ConsoleError].
Proof.
  unfold loadEffect, try_log, eff_bind, eff_lift, getItem.
  destruct storage_available; [|reflexivity].
  destruct (store !! STORAGE_KEY) as [[|c cached]|]; [reflexivity| |reflexivity].
  change (default [] (Some (c :: cached))) with (c :: cached).
  cbn [truthy truthy_str].
  destruct (JSON_parse (JStr (c :: cached))) as [parsed|]; [|reflexivity].
  unfold restored, act, eff_ret.
  destruct parsed; cbn [member_of]; try reflexivity;
    destruct (truthy_value (field "rawText" _));
    destruct (truthy_value (field "artifact" _)); reflexivity.
Qed.

(** X7. The first effect is harmless on anything but a stored JSON
    object.  With no stored value, or an empty one, it does nothing.
    When storage is refused, the value is not JSON, or it is the JSON
    [null], it logs one error and calls no setter.  In every case it
    sets only truthy values, and it sets the status exactly when it
    sets the artifact. *)
Theorem loadEffect_tolerant store :
  (storage_available = true ->
   store !! STORAGE_KEY = None \/ store !! STORAGE_KEY = Some [] ->
   loadEffect JSON_parse storage_available store = [])
  /\ (storage_available = false
      \/ (exists cached, store !! STORAGE_KEY = Some cached /\ cached <> []
            /\ (JSON_parse (JStr cached) = None
                \/ JSON_parse (JStr cached) = Some JNull)) ->
      loadEffect JSON_parse storage_available store = [ConsoleError])
  /\ (loadEffect JSON_parse storage_available store = [ConsoleError]
      \/ exists text saved,
           loadEffect JSON_parse storage_available store
           = (match text with Some v => [SetRawText v] | None => [] end)
               ++ (match saved with
                   | Some v => [SetArtifact v; SetStatus loaded_status]
                   | None => []
                   end)
           /\ (forall v, text = Some v -> to_boolean v = true)
           /\ (forall v, saved = Some v -> to_boolean v = true)).
Proof.
  rewrite loadEffect_cases. split; [|split].
  - intros -> [-> | ->]; reflexivity.
  - intros [-> | (cached & -> & Hne & Hp)]; [reflexivity|].
    destruct storage_available; [|reflexivity].
    destruct cached; [done|]. by destruct Hp as [-> | ->].
  - destruct storage_available; [|by left].
    assert (Hnone : exists text saved : option json,
              [] = (match text with Some v => [SetRawText v] | None => [] end)
                     ++ (match saved with
                         | Some v => [SetArtifact v; SetStatus loaded_status]
                         | None => []
                         end)
              /\ (forall v, text = Some v -> to_boolean v = true)
              /\ (forall v, saved = Some v -> to_boolean v = true)).
    { exists None, None. by repeat split. }
    destruct (store !! STORAGE_KEY) as [[|c cached]|]; [by right| |by right].
    destruct (JSON_parse (JStr (c :: cached))) as [parsed|]; [|by left].
    assert (Hr : exists text saved : option json,
              restored parsed
              = (match text with Some v => [SetRawText v] | None => [] end)
                  ++ (match saved with
                      | Some v => [SetArtifact v; SetStatus loaded_status]
                      | None => []
                      end)
              /\ (forall v, text = Some v -> to_boolean v = true)
              /\ (forall v, saved = Some v -> to_boolean v = true)).
    { unfold restored.
      exists (if truthy_value (field "rawText" parsed) then field "rawText" parsed else None),
             (if truthy_value (field "artifact" parsed) then field "artifact" parsed else None).
      destruct (field "rawText" parsed) as [x|], (field "artifact" parsed) as [y|];
        cbn [truthy_value default];
        try destruct (to_boolean x) eqn:Hx; try destruct (to_boolean y) eqn:Hy;
        repeat split; try done; intros ? [= <-]; done. }
    destruct parsed; (by left) || (by right).
Qed.

(** X8. The second effect writes one key and nothing else.  When the
    write is accepted, the stored value is the serialized text and
    artifact and nothing is logged; when it is refused, the store is
    unchanged and one error is logged.  No other key changes in either
    case. *)
Theorem persistEffect_own_key st store :
  let r := persistEffect JSON_stringify storage_available storage_accepts st store in
  ((r.1 !! STORAGE_KEY
    = Some (JSON_stringify (persisted (rawText st) (artifact st)))
    /\ r.2 = [])
   \/ (r.1 = store /\ r.2 = [ConsoleError]))
  /\ (forall k, k <> STORAGE_KEY -> r.1 !! k = store !! k).
Proof.
  unfold persistEffect, setItem.
  destruct (storage_available && storage_accepts _ _ _); cbn [fst snd].
  - split; [left; by rewrite lookup_insert_eq|].
    intros k Hk. by rewrite lookup_insert_ne.
  - split; [by right | done].
Qed.

(** What the second effect stores, read back by the first. *)
Lemma load_after_persist st store :
  storage_available = true ->
  storage_accepts store STORAGE_KEY
    (JSON_stringify (persisted (rawText st) (artifact st))) = true ->
  JSON_stringify (persisted (rawText st) (artifact st)) <> [] ->
  JSON_parse (JStr (JSON_stringify (persisted (rawText st) (artifact st))))
  = Some (persisted (rawText st) (artifact st)) ->
  loadEffect JSON_parse storage_available
    (persistEffect JSON_stringify storage_available storage_accepts st store).1
  = (if truthy_str (rawText st) then [SetRawText (JStr (rawText st))] else [])
      ++ match artifact st with
         | Some a => [SetArtifact (JObj a); SetStatus loaded_status]
         | None => []
         end.
Proof.
  intros Ha Hw Hne Hrt.
  rewrite loadEffect_cases. unfold persistEffect, setItem.
  rewrite Ha, Hw. cbn [andb fst]. rewrite lookup_insert_eq.
  destruct (JSON_stringify (persisted (rawText st) (artifact st))) as [|c s] eqn:E;
    [done|].
  rewrite Hrt. unfold persisted, restored, field.
  rewrite lookup_insert_eq.
  rewrite lookup_insert_ne by (by vm_compute). rewrite lookup_singleton_eq.
  cbn [truthy_value to_boolean default].
  by destruct (artifact st).
Qed.

(** X9. Round trip through storage.  When the write is accepted and
    [JSON.parse] reads back what [JSON.stringify] wrote, the first
    effect restores what the second stored: the text, unless it is
    empty, and the artifact together with the status, unless there is
    no artifact.  An empty text is not restored, so the component keeps
    the text it started with. *)
Theorem persist_then_load st store :
  storage_available = true ->
  storage_accepts store STORAGE_KEY
    (JSON_stringify (persisted (rawText st) (artifact st))) = true ->
  JSON_stringify (persisted (rawText st) (artifact st)) <> [] ->
  JSON_parse (JStr (JSON_stringify (persisted (rawText st) (artifact st))))
  = Some (persisted (rawText st) (artifact st)) ->
  loadEffect JSON_parse storage_available
    (persistEffect JSON_stringify storage_available storage_accepts st store).1
  = (if truthy_str (rawText st) then [SetRawText (JStr (rawText st))] else [])
      ++ match artifact st with
         | Some a => [SetArtifact (JObj a); SetStatus loaded_status]
         | None => []
         end.
Proof. apply load_after_persist. Qed.

End PersistenceFacts.

(** ** A run, then a reload *)

Section ReloadFacts.

Variable JSON_parse : json -> option json.
Variable JSON_stringify : json -> jsstring.
Variable transport : nat -> Request -> fetch_result.
Variable newDate : jsstring -> option DateFields.
Variable storage_available : bool.
Variable storage_accepts : gmap jsstring jsstring -> jsstring -> jsstring -> bool.

(** X10. The artifact of a run survives a reload: once the state that
    [handleProcess] leaves has been written by the second effect, the
    first effect of the next session sets that artifact and the status
    of a loaded artifact, on whichever path the run went, provided the
    write is accepted and [JSON.parse] reads back what
    [JSON.stringify] wrote. *)
Theorem artifact_survives_reload key now st t st' t' store :
  handleProcess JSON_parse transport newDate key now st t = (inr st', t') ->
  storage_available = true ->
  storage_accepts store STORAGE_KEY
    (JSON_stringify (persisted (rawText st') (artifact st'))) = true ->
  JSON_stringify (persisted (rawText st') (artifact st')) <> [] ->
  JSON_parse (JStr (JSON_stringify (persisted (rawText st') (artifact st'))))
  = Some (persisted (rawText st') (artifact st')) ->
  exists a,
    artifact st' = Some a
    /\ loadEffect JSON_parse storage_available
         (persistEffect JSON_stringify storage_available storage_accepts st' store).1
       = (if truthy_str (rawText st) then [SetRawText (JStr (rawText st))] else [])
           ++ [SetArtifact (JObj a); SetStatus loaded_status].
Proof.
  intros Hrun Ha Hw Hne Hrt.
  rewrite (load_after_persist JSON_parse JSON_stringify storage_available
             storage_accepts st' store Ha Hw Hne Hrt).
  rewrite process_by_call in Hrun.
  destruct (callGemini _ _ _ _ t) as [[e|v] t0]; [|destruct (to_boolean v)];
    injection Hrun as <- _; cbn [rawText artifact]; by eexists.
Qed.

End ReloadFacts.

(** ** What the local parser returns *)

Section FieldFacts.

Variable newDate : jsstring -> option DateFields.

Lemma rev_reverse {A} (l : list A) : rev l = reverse l.
Proof. unfold reverse. apply rev_alt. Qed.

(** [trimStart] drops a prefix and stops at a character that is not
    white space. *)
Lemma trimStart_spec (s : jsstring) :
  (exists pre, s = pre ++ trimStart s)
  /\ (forall c, head (trimStart s) = Some c -> is_space c = false).
Proof.
  induction s as [|x s [[pre IH1] IH2]]; cbn [trimStart].
  - split; [by exists [] | done].
  - destruct (is_space x) eqn:E.
    + split; [|done]. exists (x :: pre). cbn. by rewrite <- IH1.
    + split; [by exists []|]. by intros c [= <-].
Qed.

(** [trim] keeps a segment of the string that neither starts nor ends
    with white space. *)
Lemma trim_spec (s : jsstring) :
  (exists pre post, s = pre ++ trim s ++ post)
  /\ (forall c, head (trim s) = Some c -> is_space c = false)
  /\ (forall c, last (trim s) = Some c -> is_space c = false).
Proof.
  unfold trim, trimEnd.
  destruct (trimStart_spec s) as [[pre Hs] Hh].
  destruct (trimStart_spec (rev (trimStart s))) as [[p2 Hr] Hh2].
  set (t := trimStart s) in *. set (u := trimStart (rev t)) in *.
  assert (Ht : t = rev u ++ rev p2).
  { rewrite <- (rev_involutive t), Hr. apply rev_app_distr. }
  split; [|split].
  - exists pre, (rev p2). by rewrite <- Ht.
  - intros c Hc. apply Hh. rewrite Ht.
    destruct (rev u); [discriminate Hc | exact Hc].
  - intros c Hc. apply Hh2. by rewrite rev_reverse, last_reverse in Hc.
Qed.

Lemma trim_Forall (P : N -> Prop) (s : jsstring) : Forall P s -> Forall P (trim s).
Proof.
  intros H. destruct (trim_spec s) as [(pre & post & E) _].
  rewrite E in H. apply Forall_app in H as [_ H]. by apply Forall_app in H as [H _].
Qed.

(** The value [rawText.match(pattern)?.[1]?.trim()] of a label: a
    segment of a run of characters of the label's class, without white
    space at either end. *)
Lemma capture_spec lb rawText v :
  capture lb rawText = Some v ->
  Forall (fun c => cset_matches true (label_class lb) c = true) v
  /\ (forall c, head v = Some c -> is_space c = false)
  /\ (forall c, last v = Some c -> is_space c = false).
Proof.
  unfold capture, capture1_trim. intros H.
  destruct (exec true (label_pattern lb) rawText) as [m|] eqn:E; [|discriminate H].
  apply label_match in E as (g & Hg & _ & Hall).
  cbn in H. rewrite Hg in H. cbn in H. injection H as <-.
  split; [by apply trim_Forall|]. apply trim_spec.
Qed.

Definition is_alnum (c : N) : bool := is_upper c || is_lower c || is_digit c.

Lemma alnum_class c :
  cset_matches true [CRange 65 90; CRange 48 57] c = true -> is_alnum c = true.
Proof.
  unfold cset_matches, item_matches, existsb, is_alnum, is_digit, is_upper, is_lower,
    in_range, toUpper, toLower, is_lower, is_upper, in_range.
  intros H.
  assert (Hc : 65 <= c <= 90 \/ 97 <= c <= 122 \/ 48 <= c <= 57).
  { repeat match type of H with
           | context [if ?b then _ else _] => destruct b eqn:?
           end;
    repeat match goal with
           | H : _ || _ = true |- _ => apply orb_prop in H as [H|H]
           | H : _ && _ = true |- _ => apply andb_prop in H as [? ?]
           | H : _ && _ = false |- _ => apply andb_false_iff in H as [H|H]
           | H : (_ <=? _) = true |- _ => apply N.leb_le in H
           | H : (_ <=? _) = false |- _ => apply N.leb_gt in H
           | H : false = true |- _ => discriminate H
           end; lia. }
  repeat match goal with
         | |- context [?a <=? ?b] => destruct (N.leb_spec a b); try lia
         end; reflexivity.
Qed.

(** X11. The document identifier is never empty and is made of ASCII
    letters and digits only, whatever the text: a matched identifier
    is a run of them, and the placeholder is too. *)
Theorem documentId_alphanumeric rawText :
  documentId (localExtractor newDate rawText) <> []
  /\ Forall (fun c => is_alnum c = true) (documentId (localExtractor newDate rawText)).
Proof.
  rewrite extractor_unfold. cbn [documentId].
  split; [by apply or_default_nonempty|].
  assert (Hcap : forall lb v, lb = LPassportNo \/ lb = LDocumentID ->
            capture lb rawText = Some v -> Forall (fun c => is_alnum c = true) v).
  { intros lb v Hlb Hv. apply capture_spec in Hv as [Hall _].
    eapply Forall_impl; [exact Hall|]. intros c Hc. apply alnum_class.
    by destruct Hlb; subst lb. }
  assert (Hu : Forall (fun c => is_alnum c = true) UNKNOWN) by (repeat constructor).
  unfold first_truthy, or_default.
  destruct (capture LPassportNo rawText) as [[|c v]|] eqn:E1; cbn [truthy truthy_str];
    [| by apply (Hcap LPassportNo); [left|] |];
    (destruct (capture LDocumentID rawText) as [[|c v]|] eqn:E2; cbn [truthy_str];
       [done | by apply (Hcap LDocumentID); [right|] | done]).
Qed.

(** X12. The applicant name is never empty, neither starts nor ends
    with white space, and is made only of the characters the Name
    pattern captures: letters, space, comma, period, apostrophe and
    hyphen. *)
Theorem applicantName_trimmed rawText :
  applicantName (localExtractor newDate rawText) <> []
  /\ Forall (fun c => cset_matches true (label_class LName) c = true)
       (applicantName (localExtractor newDate rawText))
  /\ (forall c, head (applicantName (localExtractor newDate rawText)) = Some c ->
        is_space c = false)
  /\ (forall c, last (applicantName (localExtractor newDate rawText)) = Some c ->
        is_space c = false).
Proof.
  rewrite extractor_unfold. cbn [applicantName].
  split; [by apply or_default_nonempty|].
  assert (Hu : Forall (fun c => cset_matches true (label_class LName) c = true) UNKNOWN
               /\ (forall c, head UNKNOWN = Some c -> is_space c = false)
               /\ (forall c, last UNKNOWN = Some c -> is_space c = false)).
  { split; [repeat constructor|]. split; intros c [= <-]; reflexivity. }
  unfold or_default.
  destruct (capture LName rawText) as [[|c v]|] eqn:E; cbn [truthy_str]; [done| |done].
  by apply capture_spec in E.
Qed.

Lemma parseDate_hyphen value d : parseDate newDate value = Some d -> 45 ∈ d.
Proof.
  unfold parseDate.
  destruct (negb (truthy_str value)); [discriminate|].
  assert (H : forall a b : jsstring, 45 ∈ a ++ str "-" ++ b).
  { intros a b. apply elem_of_app. right. apply list_elem_of_here. }
  destruct (exec false isoPattern value) as [m|]; [intros [= <-]; apply H|].
  destruct (exec false friendlyPattern value) as [m|]; [|discriminate].
  destruct (newDate _) as [dt|]; [|discriminate]. intros [= <-]. apply H.
Qed.

(** X13. In [issueDate] the placeholder is unambiguous: the field is
    [UNKNOWN] exactly when neither the Issue Date capture nor the
    Issued on capture normalizes to a date, and otherwise it is the
    first date that one of them normalizes to. *)
Theorem issueDate_unknown_iff rawText :
  (issueDate (localExtractor newDate rawText) = UNKNOWN
   <-> date_of newDate LIssueDate rawText = None
       /\ date_of newDate LIssuedOn rawText = None)
  /\ (forall d, issueDate (localExtractor newDate rawText) = d -> d <> UNKNOWN ->
        date_of newDate LIssueDate rawText = Some d
        \/ (date_of newDate LIssueDate rawText = None
            /\ date_of newDate LIssuedOn rawText = Some d)).
Proof.
  rewrite extractor_unfold. cbn [issueDate]. unfold first_truthy.
  assert (Hne : forall lb d, date_of newDate lb rawText = Some d ->
            truthy (Some d) = true /\ d <> UNKNOWN).
  { intros lb d Hd. split.
    - destruct (truthy (Some d)) eqn:T; [done|].
      rewrite <- Hd in T. apply parseDate_truthy in T. unfold date_of in Hd. congruence.
    - intros ->. apply parseDate_hyphen in Hd.
      vm_compute in Hd.
      repeat (apply elem_of_cons in Hd as [Hd|Hd]; [discriminate Hd|]).
      by apply elem_of_nil in Hd. }
  destruct (date_of newDate LIssueDate rawText) as [d1|] eqn:E1.
  - destruct (Hne _ _ E1) as [T1 N1]. rewrite T1.
    assert (Ed : or_default (Some d1) UNKNOWN = d1).
    { pose proof (or_default_truthy (Some d1) UNKNOWN T1). congruence. }
    rewrite Ed. split.
    + split; [done | by intros [? _]].
    + intros d <- _. by left.
  - cbn [truthy].
    destruct (date_of newDate LIssuedOn rawText) as [d2|] eqn:E2.
    + destruct (Hne _ _ E2) as [T2 N2].
      assert (Ed : or_default (Some d2) UNKNOWN = d2).
      { pose proof (or_default_truthy (Some d2) UNKNOWN T2). congruence. }
      rewrite Ed. split.
      * split; [done | by intros [_ ?]].
      * intros d <- _. by right.
    + cbn [or_default]. split; [done|]. by intros d <- Hd.
Qed.

End FieldFacts.

(** ** Free-text dates and the prompt *)

Section DateFacts.

Variable newDate : jsstring -> option DateFields.

Definition two_digits (z : Z) (s : jsstring) : bool :=
  Nat.eqb (length s) 2 && forallb is_digit s && (Example.Z_of_digits s =? z)%Z.

(** [String(n).padStart(2, '0')] of a number from 0 to 99 is its
    two-digit decimal. *)
Lemma padStart0_two_digits z :
  (0 <= z <= 99)%Z -> two_digits z (padStart0 2 (string_of_Z z)) = true.
Proof.
  intros Hz.
  assert (Hall : forallb (fun n => two_digits (Z.of_nat n)
                                     (padStart0 2 (string_of_Z (Z.of_nat n))))
                   (seq 0 100) = true) by (by vm_compute).
  rewrite forallb_forall in Hall.
  specialize (Hall (Z.to_nat z)). rewrite Z2Nat.id in Hall by lia.
  apply Hall. apply in_seq. lia.
Qed.

(** X14. A date written as day, month name and year (and no numeric
    date before it in the text) is normalized through the host's
    [Date]: an invalid date gives [undefined], and a valid one gives
    the year, the month and the day joined by hyphens, the month
    ([getMonth() + 1]) and the day always as two digits. *)
Theorem parseDate_friendly_format value m :
  exec false isoPattern value = None ->
  exec false friendlyPattern value = Some m ->
  (newDate (default [] (group 2 m) ++ str " " ++ default [] (group 1 m)
              ++ str ", " ++ default [] (group 3 m)) = None ->
   parseDate newDate value = None)
  /\ (forall date,
        newDate (default [] (group 2 m) ++ str " " ++ default [] (group 1 m)
                   ++ str ", " ++ default [] (group 3 m)) = Some date ->
        (0 <= getMonth date <= 11)%Z ->
        (1 <= getDate date <= 31)%Z ->
        exists mm dd,
          parseDate newDate value
          = Some (string_of_Z (getFullYear date) ++ str "-" ++ mm ++ str "-" ++ dd)
          /\ two_digits (getMonth date + 1) mm = true
          /\ two_digits (getDate date) dd = true).
Proof.
  intros Hiso Hfr.
  assert (Hv : truthy_str value = true).
  { destruct value; [|reflexivity]. vm_compute in Hfr. discriminate Hfr. }
  unfold parseDate. rewrite Hv, Hiso, Hfr. cbn [negb]. split.
  - by intros ->.
  - intros date -> Hm Hd. eexists _, _. split; [reflexivity|].
    split; apply padStart0_two_digits; lia.
Qed.

End DateFacts.


(** ** The case of letters *)

(** Two code units are the same up to the case of ASCII letters. *)
Definition same_letter (a b : N) : Prop := toUpper a = toUpper b.

(** Two texts differ at most in the case of their ASCII letters. *)
Definition same_text : jsstring -> jsstring -> Prop := Forall2 same_letter.

Definition same_captures : captures -> captures -> Prop :=
  Forall2 (fun x y => x.1 = y.1 /\ same_text x.2 y.2).

Section CaseFacts.

Lemma same_letter_cases a b :
  same_letter a b ->
  a = b
  \/ (97 <= a <= 122 /\ b = a - 32)
  \/ (97 <= b <= 122 /\ a = b - 32).
Proof.
  unfold same_letter, toUpper, is_lower, in_range. intros H.
  destruct ((97 <=? a) && (a <=? 122)) eqn:Ea, ((97 <=? b) && (b <=? 122)) eqn:Eb;
    repeat match goal with
           | H : _ && _ = true |- _ => apply andb_prop in H as [? ?]
           | H : _ && _ = false |- _ => apply andb_false_iff in H as [H|H]
           | H : (_ <=? _) = true |- _ => apply N.leb_le in H
           | H : (_ <=? _) = false |- _ => apply N.leb_gt in H
           end; lia.
Qed.

Lemma lower_upper a :
  97 <= a <= 122 ->
  toUpper a = a - 32 /\ toLower a = a
  /\ toUpper (a - 32) = a - 32 /\ toLower (a - 32) = a.
Proof.
  intros Ha. unfold toUpper, toLower, is_lower, is_upper, in_range.
  repeat match goal with
         | |- context [?x <=? ?y] => destruct (N.leb_spec x y); try lia
         end; cbn [andb]; repeat split; lia.
Qed.

Lemma lower_upper_class a :
  97 <= a <= 122 ->
  is_digit a = false /\ is_digit (a - 32) = false
  /\ is_word a = true /\ is_word (a - 32) = true
  /\ is_space a = false /\ is_space (a - 32) = false.
Proof.
  intros Ha. unfold is_word, is_digit, is_upper, is_lower, in_range, is_space.
  repeat match goal with
         | |- context [?x <=? ?y] => destruct (N.leb_spec x y); try lia
         | |- context [?x =? ?y] => destruct (N.eqb_spec x y); try lia
         end; cbn [andb orb]; repeat split; reflexivity.
Qed.

Lemma item_matches_lower it a :
  97 <= a <= 122 -> item_matches true it a = item_matches true it (a - 32).
Proof.
  intros Ha.
  destruct (lower_upper a Ha) as (U1 & L1 & U2 & L2).
  destruct (lower_upper_class a Ha) as (D1 & D2 & W1 & W2 & S1 & S2).
  destruct it as [x|lo hi| | |]; cbn [item_matches andb].
  - rewrite U1, U2.
    destruct (N.eqb_spec x a) as [E1|_], (N.eqb_spec x (a - 32)) as [E2|_];
      try subst x; rewrite ?U1, ?U2, ?N.eqb_refl, ?orb_true_r; reflexivity.
  - rewrite U1, L1, U2, L2.
    by destruct (in_range lo hi a), (in_range lo hi (a - 32)).
  - by rewrite D1, D2.
  - by rewrite W1, W2.
  - by rewrite S1, S2.
Qed.

(** The [i] flag: a class accepts a letter in either case. *)
Lemma cset_matches_same cs a b :
  same_letter a b -> cset_matches true cs a = cset_matches true cs b.
Proof.
  intros H. unfold cset_matches.
  induction cs as [|it cs IH]; [reflexivity|]. cbn [existsb]. rewrite IH. f_equal.
  destruct (same_letter_cases a b H) as [-> | [[Ha ->] | [Hb ->]]];
    [reflexivity | by apply item_matches_lower | symmetry; by apply item_matches_lower].
Qed.

Lemma is_space_same a b : same_letter a b -> is_space a = is_space b.
Proof.
  intros H.
  destruct (same_letter_cases a b H) as [-> | [[Ha ->] | [Hb ->]]]; [reflexivity| |].
  - destruct (lower_upper_class a Ha) as (_ & _ & _ & _ & S1 & S2). by rewrite S1, S2.
  - destruct (lower_upper_class b Hb) as (_ & _ & _ & _ & S1 & S2). by rewrite S1, S2.
Qed.

Lemma same_text_refl s : same_text s s.
Proof. induction s; by constructor. Qed.

Lemma rep_same {A} (R : A -> A -> Prop) cs s s' :
  same_text s s' ->
  forall mn mx k k',
    (forall r r', same_text r r' -> option_Forall2 R (k r) (k' r')) ->
    option_Forall2 R (rep true cs mn mx s k) (rep true cs mn mx s' k').
Proof.
  induction 1 as [|a b s s' Hab Hs IH]; intros mn mx k k' Hk; cbn [rep].
  - destruct (Nat.eqb mn 0); [apply Hk; constructor | constructor].
  - rewrite (cset_matches_same cs a b Hab).
    assert (Hstop : option_Forall2 R (if Nat.eqb mn 0 then k (a :: s) else None)
                      (if Nat.eqb mn 0 then k' (b :: s') else None)).
    { destruct (Nat.eqb mn 0); [apply Hk; by constructor | constructor]. }
    destruct (more_allowed mx && cset_matches true cs b); [|exact Hstop].
    destruct (IH (Nat.pred mn) (Nat.pred <$> mx) k k' Hk) as [x y Hxy|];
      [by constructor | exact Hstop].
Qed.

Lemma same_text_take n s s' : same_text s s' -> same_text (take n s) (take n s').
Proof. apply Forall2_take. Qed.

Lemma run_same r :
  forall s s' c c' k k',
    same_text s s' -> same_captures c c' ->
    (forall r r' d d', same_text r r' -> same_captures d d' ->
       option_Forall2 same_captures (k r d) (k' r' d')) ->
    option_Forall2 same_captures (run true r s c k) (run true r s' c' k').
Proof.
  induction r as [|cs mn mx|a IHa b IHb|n a IHa]; intros s s' c c' k k' Hs Hc Hk;
    cbn [run].
  - by apply Hk.
  - apply rep_same; [done|]. intros r r' Hr. by apply Hk.
  - apply IHa; [done | done |]. intros r r' d d' Hr Hd. by apply IHb.
  - apply IHa; [done | done |]. intros r r' d d' Hr Hd. apply Hk; [done|].
    constructor; [|done]. split; [done|]. cbn [snd].
    rewrite (Forall2_length _ _ _ Hs), (Forall2_length _ _ _ Hr).
    by apply same_text_take.
Qed.

Lemma match_here_same r s s' :
  same_text s s' ->
  option_Forall2 same_captures (match_here true r s) (match_here true r s').
Proof.
  intros Hs. unfold match_here. apply run_same; [done | constructor |].
  intros r0 r' d d' Hr Hd. constructor. constructor; [|done]. split; [done|]. cbn [snd].
  rewrite (Forall2_length _ _ _ Hs), (Forall2_length _ _ _ Hr).
  by apply same_text_take.
Qed.

(** [s.match(r)] under the [i] flag finds the same match, up to case,
    in two texts that are the same up to case. *)
Lemma exec_same r s s' :
  same_text s s' ->
  option_Forall2 same_captures (exec true r s) (exec true r s').
Proof.
  induction 1 as [|a b s s' Hab Hs IH].
  - destruct (exec true r []) as [m|]; constructor.
    induction m as [|[i g] m IHm]; constructor; [|exact IHm].
    split; [done|]. apply same_text_refl.
  - cbn [exec]. assert (H1 : same_text (a :: s) (b :: s')) by (by constructor).
    destruct (match_here_same r (a :: s) (b :: s') H1) as [x y Hxy|];
      [by constructor | exact IH].
Qed.

Lemma group_same n m m' :
  same_captures m m' -> option_Forall2 same_text (group n m) (group n m').
Proof.
  induction 1 as [|[i x] [j y] m m' [Hij Hxy] Hm IH]; cbn [group]; [constructor|].
  cbn in Hij, Hxy. subst j. destruct (Nat.eqb i n); [by constructor | exact IH].
Qed.

Lemma trimStart_same s s' : same_text s s' -> same_text (trimStart s) (trimStart s').
Proof.
  induction 1 as [|a b s s' Hab Hs IH]; cbn [trimStart]; [constructor|].
  rewrite (is_space_same a b Hab). destruct (is_space b); [exact IH | by constructor].
Qed.

Lemma rev_same s s' : same_text s s' -> same_text (rev s) (rev s').
Proof.
  induction 1 as [|a b s s' Hab Hs IH]; cbn [rev]; [constructor|].
  apply Forall2_app; [exact IH | by repeat constructor].
Qed.

Lemma trim_same s s' : same_text s s' -> same_text (trim s) (trim s').
Proof.
  intros H. unfold trim, trimEnd.
  by apply rev_same, trimStart_same, rev_same, trimStart_same.
Qed.

Lemma capture_same lb s s' :
  same_text s s' -> option_Forall2 same_text (capture lb s) (capture lb s').
Proof.
  intros H. unfold capture, capture1_trim.
  destruct (exec_same (label_pattern lb) s s' H) as [m m' Hm|]; [|constructor].
  cbn. destruct (group_same 1 m m' Hm) as [g g' Hg|]; [|constructor].
  cbn. constructor. by apply trim_same.
Qed.

Lemma truthy_same a b : option_Forall2 same_text a b -> truthy a = truthy b.
Proof. intros [x y Hxy|]; [|reflexivity]. by destruct Hxy. Qed.

Lemma or_default_same a b d :
  option_Forall2 same_text a b -> same_text d d ->
  same_text (or_default a d) (or_default b d).
Proof.
  intros [x y Hxy|] Hd; [|done].
  destruct Hxy; cbn; [exact Hd | by constructor].
Qed.

(** X15. The labels and the values of the name and of the document
    identifier are read without regard to case: two texts that are the
    same up to the case of ASCII letters give names, and identifiers,
    that are the same up to the case of ASCII letters. *)
Theorem localExtractor_ignores_case newDate rawText rawText' :
  same_text rawText rawText' ->
  same_text (applicantName (localExtractor newDate rawText))
            (applicantName (localExtractor newDate rawText'))
  /\ same_text (documentId (localExtractor newDate rawText))
               (documentId (localExtractor newDate rawText')).
Proof.
  intros H. rewrite !extractor_unfold. cbn [applicantName documentId]. split.
  - apply or_default_same; [by apply capture_same | apply same_text_refl].
  - apply or_default_same; [|apply same_text_refl].
    unfold first_truthy.
    rewrite (truthy_same _ _ (capture_same LPassportNo _ _ H)).
    destruct (truthy (capture LPassportNo rawText')); by apply capture_same.
Qed.

End CaseFacts.

(** ** What a run sends *)

Section RequestFacts.

Variable JSON_parse : json -> option json.
Variable transport : nat -> Request -> fetch_result.
Variable newDate : jsstring -> option DateFields.

(** [body.contents[0].parts[0].text] of a request. *)
Definition prompt_of (req : Request) : option json :=
  contents ← field "contents" (body req);
  content ← item0 contents;
  parts ← field "parts" content;
  part ← item0 parts;
  field "text" part.

(** X16. Every request of a run of [handleProcess] is a POST to the
    endpoint with the credential appended, asks for a JSON answer, and
    carries one prompt, which ends with the text of the run, verbatim
    and in full; a run sends at most three of them. *)
Theorem process_requests key now st :
  let t := snd (handleProcess JSON_parse transport newDate key now st []) in
  (length (requests t) <= 3)%nat
  /\ Forall (fun req =>
               url req = endpoint ++ key
               /\ method req = str "POST"
               /\ (field "generationConfig" (body req) ≫= field "responseMimeType")
                  = Some (JStr (str "application/json"))
               /\ exists header,
                    prompt_of req = Some (JStr (header ++ rawText st)))
       (requests t).
Proof.
  assert (Hreq : forall prompt,
            url (request (endpoint ++ key) prompt) = endpoint ++ key
            /\ method (request (endpoint ++ key) prompt) = str "POST"
            /\ (field "generationConfig" (body (request (endpoint ++ key) prompt))
                  ≫= field "responseMimeType")
               = Some (JStr (str "application/json"))
            /\ prompt_of (request (endpoint ++ key) prompt) = Some (JStr prompt)).
  { intros prompt. split; [done|]. split; [done|].
    unfold prompt_of, request, field, item0. cbn [body].
    split.
    - rewrite lookup_insert_ne by (by vm_compute). rewrite lookup_singleton_eq.
      cbn [mbind option_bind]. by rewrite lookup_singleton_eq.
    - rewrite lookup_insert_eq. cbn [mbind option_bind lookup list_lookup].
      rewrite lookup_singleton_eq. cbn [mbind option_bind lookup list_lookup].
      by rewrite lookup_singleton_eq. }
  assert (Hb : forall n, (n <= 2)%nat ->
            let b := backoff (request (endpoint ++ key) (buildPrompt (rawText st))) n 500 in
            (length (requests b) <= 3)%nat
            /\ Forall (fun r => r = request (endpoint ++ key) (buildPrompt (rawText st)))
                 (requests b)).
  { intros n Hn. cbn zeta. rewrite requests_backoff, length_replicate.
    split; [lia|]. apply Forall_replicate. reflexivity. }
  assert (Hall : forall l,
            Forall (fun r => r = request (endpoint ++ key) (buildPrompt (rawText st))) l ->
            Forall (fun req =>
                      url req = endpoint ++ key
                      /\ method req = str "POST"
                      /\ (field "generationConfig" (body req) ≫= field "responseMimeType")
                         = Some (JStr (str "application/json"))
                      /\ exists header,
                           prompt_of req = Some (JStr (header ++ rawText st))) l).
  { intros l Hl. eapply Forall_impl; [exact Hl|]. intros req ->.
    destruct (Hreq (buildPrompt (rawText st))) as (H1 & H2 & H3 & H4).
    do 3 (split; [done|]).
    eexists. rewrite H4. unfold buildPrompt. by rewrite !app_assoc. }
  assert (Hlog : forall l, requests (l ++ [EConsoleError]) = requests l).
  { intros l. unfold requests. rewrite omap_app. cbn. by rewrite app_nil_r. }
  cbn zeta. rewrite process_by_call.
  destruct key as [|c key'] eqn:Ek.
  { change (callGemini JSON_parse transport (buildPrompt (rawText st)) (Some []) [])
      with (@inr error json JNull, @nil event).
    cbn. split; [lia | constructor]. }
  rewrite <- Ek in *.
  assert (Hk : key <> []) by (by rewrite Ek).
  destruct (callGemini_cases JSON_parse transport (buildPrompt (rawText st)) key Hk)
    as [(n & v & Hn & _ & ->)|(e & _ & ->)].
  - destruct (Hb n) as [H1 H2]; [unfold maxAttempts in Hn; lia|].
    destruct (to_boolean v); cbn [snd]; (split; [exact H1 | by apply Hall]).
  - destruct (Hb 2%nat) as [H1 H2]; [lia|].
    cbn [snd]. rewrite Hlog. split; [exact H1 | by apply Hall].
Qed.

End RequestFacts.

(** ** The further properties at concrete inputs *)

Lemma callGemini_first_success_witness :
  exists t,
    callGemini Example.JSON_parse (Example.recovering (str "{}")) (str "p")
      (Some (str "k")) []
    = (inr (JObj ∅), t)
    /\ requests t = replicate 3 (request (endpoint ++ str "k") (str "p"))
    /\ delays t = [500; 1000]%Z.
Proof.
  destruct (callGemini_first_success Example.JSON_parse
              (Example.recovering (str "{}")) (str "p") (str "k") (JObj ∅) 2)
    as (t & C & R & D & _).
  - discriminate.
  - unfold maxAttempts. lia.
  - intros [|[|i]] Hi; [by exists (RequestFailed 503) | by exists (RequestFailed 503) | lia].
  - by vm_compute.
  - exists t. split; [exact C|]. split; [exact R | exact D].
Defined.

Lemma process_remote_success_witness :
  exists a t,
    handleProcess Example.JSON_parse (Example.answers Example.spoofed_source)
      Example.newDate (str "k") (str "2026-01-01T00:00:00.000Z")
      (Example.initial DEFAULT_TEXT) []
    = (inr {| rawText := DEFAULT_TEXT; artifact := Some a;
              status := {| tone := success;
                           message := str "Extraction completed using the Gemini API." |};
              processing := false |}, t)
    /\ fetches t = 1%nat
    /\ a !! str "source" = Some (JStr (str "gemini-2.5-flash-preview-09-2025"))
    /\ a !! str "rawText" = Some (JStr DEFAULT_TEXT).
Proof.
  destruct (process_remote_success Example.JSON_parse
              (Example.answers Example.spoofed_source) Example.newDate
              (str "k") (str "2026-01-01T00:00:00.000Z") (Example.initial DEFAULT_TEXT)
              (JObj {[ str "source" := JStr (str "elsewhere") ]}) 0)
    as (a & t & R & F & S & T & _).
  - discriminate.
  - unfold maxAttempts. lia.
  - intros i Hi. lia.
  - by vm_compute.
  - reflexivity.
  - exists a, t. split; [exact R|]. split; [exact F|]. split; [exact S | exact T].
Defined.

Lemma process_remote_exhausted_witness :
  handleProcess Example.JSON_parse Example.overloaded Example.newDate
    (str "k") (str "2026-01-01T00:00:00.000Z") (Example.initial DEFAULT_TEXT) []
  = (inr {| rawText := DEFAULT_TEXT;
            artifact := Some (local_artifact Example.newDate DEFAULT_TEXT
                                (str "2026-01-01T00:00:00.000Z"));
            status :=
              {| tone := warning;
                 message := str "Gemini API unavailable; used local extractor with the latest document text." |};
            processing := false |},
     backoff (request (endpoint ++ str "k") (buildPrompt DEFAULT_TEXT)) 2 500
       ++ [EConsoleError]).
Proof.
  apply (process_remote_exhausted Example.JSON_parse Example.overloaded Example.newDate
           (str "k") (str "2026-01-01T00:00:00.000Z") (Example.initial DEFAULT_TEXT)
           (RequestFailed 503) (RequestFailed 503) (RequestFailed 503));
    [discriminate | reflexivity | reflexivity | reflexivity].
Defined.

Lemma loadEffect_tolerant_witness :
  loadEffect Example.JSON_parse true (∅ : gmap jsstring jsstring) = []
  /\ loadEffect Example.JSON_parse true ({[ STORAGE_KEY := str "null" ]}) = [ConsoleError]
  /\ loadEffect Example.JSON_parse true ({[ STORAGE_KEY := str "{oops" ]}) = [ConsoleError].
Proof.
  split; [|split].
  - apply (loadEffect_tolerant Example.JSON_parse true ∅); [reflexivity | by left].
  - apply (loadEffect_tolerant Example.JSON_parse true {[ STORAGE_KEY := str "null" ]}).
    right. exists (str "null"). split; [by rewrite lookup_singleton_eq|].
    split; [discriminate | by right].
  - apply (loadEffect_tolerant Example.JSON_parse true {[ STORAGE_KEY := str "{oops" ]}).
    right. exists (str "{oops"). split; [by rewrite lookup_singleton_eq|].
    split; [discriminate | by left].
Defined.

Lemma persist_then_load_witness :
  loadEffect Example.JSON_parse true
    (persistEffect Example.JSON_stringify true Example.roomy Example.extracted ∅).1
  = [SetRawText (JStr (str "Name: Jane Doe"));
     SetArtifact (JObj (local_artifact Example.newDate (str "Name: Jane Doe")
                          (str "2026-01-01T00:00:00.000Z")));
     SetStatus loaded_status].
Proof.
  apply (persist_then_load Example.JSON_parse Example.JSON_stringify true
           Example.roomy Example.extracted ∅);
    [reflexivity | reflexivity | by vm_compute | by vm_compute].
Defined.

Lemma artifact_survives_reload_witness :
  exists a,
    a !! str "source" = Some (JStr (str "local-extractor"))
    /\ loadEffect Example.JSON_parse true
         (persistEffect Example.JSON_stringify true Example.roomy Example.extracted ∅).1
       = [SetRawText (JStr (str "Name: Jane Doe")); SetArtifact (JObj a);
          SetStatus loaded_status].
Proof.
  destruct (artifact_survives_reload Example.JSON_parse Example.JSON_stringify
              Example.unreachable Example.newDate true Example.roomy
              [] (str "2026-01-01T00:00:00.000Z") (Example.initial (str "Name: Jane Doe"))
              [] Example.extracted [] ∅) as (a & A & L).
  - apply (process_no_key Example.JSON_parse Example.unreachable Example.newDate None
             (str "2026-01-01T00:00:00.000Z") (Example.initial (str "Name: Jane Doe")) []).
    reflexivity.
  - reflexivity.
  - reflexivity.
  - by vm_compute.
  - by vm_compute.
  - exists a. split; [|exact L].
    injection A as <-. apply local_source.
Defined.

Lemma parseDate_friendly_format_witness :
  exists mm dd,
    parseDate Example.newDate (str "17 May 2021")
    = Some (string_of_Z 2021 ++ str "-" ++ mm ++ str "-" ++ dd)
    /\ two_digits 5 mm = true
    /\ two_digits 17 dd = true.
Proof.
  destruct (parseDate_friendly_format Example.newDate (str "17 May 2021")
              [(0, str "17 May 2021"); (3, str "2021"); (2, str "May"); (1, str "17")]%nat
              eq_refl eq_refl) as [_ H].
  apply (H {| getFullYear := 2021; getMonth := 4; getDate := 17 |}); [reflexivity | cbn; lia | cbn; lia].
Defined.

Lemma localExtractor_ignores_case_witness :
  same_text (str "NAME: jane doe") (str "name: JANE DOE")
  /\ same_text (applicantName (localExtractor Example.newDate (str "NAME: jane doe")))
               (applicantName (localExtractor Example.newDate (str "name: JANE DOE"))).
Proof.
  assert (H : same_text (str "NAME: jane doe") (str "name: JANE DOE"))
    by (repeat constructor).
  split; [exact H|].
  apply (localExtractor_ignores_case Example.newDate _ _ H).
Defined.

(** ** Answers that are not what the program asks for *)

Section OddAnswers.

Variable JSON_parse : json -> option json.
Variable transport : nat -> Request -> fetch_result.
Variable newDate : jsstring -> option DateFields.

(** X17. An answer whose text is not JSON is retried like a network
    failure: when each of the three answers has a success status and a
    text that [JSON.parse] rejects, [callGemini] issues the three
    requests, suspends for 500 and 1000 ms, and throws the parse
    error; [handleProcess] then falls back to the local extractor and
    reports the service as unavailable. *)
Theorem malformed_answer_retried key now st :
  key <> [] ->
  (forall i, (i < 3)%nat ->
     exists status payload text,
       transport i (request (endpoint ++ key) (buildPrompt (rawText st)))
       = Response status (Some payload)
       /\ ok status = true
       /\ response_text payload = Some text
       /\ to_boolean text = true
       /\ JSON_parse text = None) ->
  callGemini JSON_parse transport (buildPrompt (rawText st)) (Some key) []
  = (inl ParseFailed,
     backoff (request (endpoint ++ key) (buildPrompt (rawText st))) 2 500)
  /\ delays (backoff (request (endpoint ++ key) (buildPrompt (rawText st))) 2 500)
     = [500; 1000]%Z
  /\ exists st',
       handleProcess JSON_parse transport newDate key now st []
       = (inr st',
          backoff (request (endpoint ++ key) (buildPrompt (rawText st))) 2 500
            ++ [EConsoleError])
       /\ artifact st' = Some (local_artifact newDate (rawText st) now)
       /\ message (status st')
          = str "Gemini API unavailable; used local extractor with the latest document text.".
Proof.
  intros Hk Hbad.
  assert (Hfail : forall i, (i < 3)%nat ->
            outcome JSON_parse
              (transport i (request (endpoint ++ key) (buildPrompt (rawText st))))
            = inl ParseFailed).
  { intros i Hi. destruct (Hbad i Hi) as (status & payload & text & -> & Hok & Ht & Hb & Hp).
    unfold outcome. by rewrite Hok, Ht, Hb, Hp. }
  assert (Hcall : callGemini JSON_parse transport (buildPrompt (rawText st)) (Some key) []
                  = (inl ParseFailed,
                     backoff (request (endpoint ++ key) (buildPrompt (rawText st))) 2 500)).
  { rewrite callGemini_with_key by done.
    apply (attempts_exhausted _ _ _ _ ParseFailed 2 _ _ _ []).
    - unfold maxAttempts. lia.
    - reflexivity.
    - intros i Hi. exists ParseFailed. apply Hfail. cbn. lia.
    - apply Hfail. cbn. lia. }
  split; [exact Hcall|]. split; [reflexivity|].
  eexists. rewrite process_by_call, Hcall. by repeat split.
Qed.

(** X18. A truthy answer that is a number or [true] is taken as a
    success although it has no properties: the artifact then holds
    [source], [rawText] and [processedAt] and none of the schema
    fields. *)
Theorem scalar_answer_is_success key now st v t t' :
  callGemini JSON_parse transport (buildPrompt (rawText st)) (Some key) t = (inr v, t') ->
  to_boolean v = true ->
  (exists x, v = JNum x) \/ v = JBool true ->
  exists st' a,
    handleProcess JSON_parse transport newDate key now st t = (inr st', t')
    /\ tone (status st') = success
    /\ artifact st' = Some a
    /\ dom a = {[ str "source"; str "rawText"; str "processedAt" ]}
    /\ (forall f, f ∈ schema_fields -> a !! f = None).
Proof.
  intros Hcall Hv Hshape.
  assert (Hs : spread v = ∅) by (by destruct Hshape as [[x ->] | ->]).
  eexists _, _. rewrite process_by_call, Hcall, Hv.
  split; [reflexivity|]. cbn [status tone artifact].
  split; [reflexivity|]. split; [reflexivity|].
  unfold remote_artifact. rewrite Hs.
  split.
  - rewrite !dom_insert_L, dom_empty_L. set_solver.
  - intros f Hf. unfold schema_fields in Hf. cbn in Hf.
    rewrite !lookup_insert_ne; [apply lookup_empty| | |];
      intros <-; revert Hf; vm_compute; intros Hf; set_solver.
Qed.

End OddAnswers.

Lemma malformed_answer_retried_witness :
  callGemini Example.JSON_parse (Example.answers (str "not json"))
    (buildPrompt DEFAULT_TEXT) (Some (str "k")) []
  = (inl ParseFailed,
     backoff (request (endpoint ++ str "k") (buildPrompt DEFAULT_TEXT)) 2 500).
Proof.
  apply (malformed_answer_retried Example.JSON_parse (Example.answers (str "not json"))
           Example.newDate (str "k") (str "2026-01-01T00:00:00.000Z")
           (Example.initial DEFAULT_TEXT)).
  - discriminate.
  - intros i Hi. eexists 200%Z, _, (JStr (str "not json")).
    split; [reflexivity|]. split; [reflexivity|]. split; [by vm_compute|].
    split; [reflexivity | by vm_compute].
Defined.

Lemma scalar_answer_is_success_witness :
  exists st' a,
    handleProcess Example.JSON_parse (Example.answers (str "true")) Example.newDate
      (str "k") (str "2026-01-01T00:00:00.000Z") (Example.initial DEFAULT_TEXT) []
    = (inr st', [EFetch (request (endpoint ++ str "k") (buildPrompt DEFAULT_TEXT))])
    /\ tone (status st') = success
    /\ artifact st' = Some a
    /\ dom a = {[ str "source"; str "rawText"; str "processedAt" ]}.
Proof.
  destruct (scalar_answer_is_success Example.JSON_parse (Example.answers (str "true"))
              Example.newDate (str "k") (str "2026-01-01T00:00:00.000Z")
              (Example.initial DEFAULT_TEXT) (JBool true) []
              [EFetch (request (endpoint ++ str "k") (buildPrompt DEFAULT_TEXT))])
    as (st' & a & R & T & A & D & _).
  - by vm_compute.
  - reflexivity.
  - by right.
  - exists st', a. auto.
Defined.

(** ** A run on any text *)

Section PageFacts.

Variable JSON_parse : json -> option json.
Variable transport : nat -> Request -> fetch_result.
Variable newDate : jsstring -> option DateFields.
Variable ToString : json -> jsstring.




End PageFacts.

